(** * Iteration lifecycle tracking and tool-provider icon resolution

    A shallow embedding of

      - api/core/app/task_pipeline/workflow_iteration_cycle_manage.py
        (class [WorkflowIterationCycleManage]) and
      - api/services/tools/tools_transform_service.py
        ([ToolTransformService.get_tool_provider_icon_url]),

    together with the properties the specification states about them.

    Python values are modelled in [Module Py]; the controller lives in
    [Module Iteration] and the icon resolver in [Module ToolTransform]. *)

From Stdlib Require Import ZArith NArith List String Ascii DecimalString Lia.
From stdpp Require Import base option list gmap.
Import ListNotations.

Local Open Scope Z_scope.

(* ===================================================================== *)
(** * Python values *)
(* ===================================================================== *)

Module Py.

(** A Python [str] is a sequence of Unicode code points. *)
Definition str := list N.

(** The code points of an ASCII literal. *)
Definition lit (s : string) : str :=
  map (fun a => N.of_nat (nat_of_ascii a)) (list_ascii_of_string s).

Arguments lit : simpl never.

#[local] Set Warnings "-register-all".

(** Python values.  A dict keeps its insertion order, so it is an
    association list.  A float is carried as the text that [json.dumps]
    prints for it.  [VObject] is an object of a type outside these, such as
    a set or a [datetime]: the default JSON encoder has no text for it, it
    equals no str and it is neither text nor bytes.  The code never looks
    inside such an object. *)
Inductive value : Type :=
  | VNone
  | VBool (b : bool)
  | VInt (z : Z)
  | VFloat (text : str)
  | VStr (s : str)
  | VList (l : list value)
  | VDict (d : list (str * value))
  | VObject.

(** ** [json.dumps] with its default arguments

    [ensure_ascii=True], item separator [", "], key separator [": "]. *)

Definition hex_digit (n : N) : N :=
  (if n <? 10 then 48 + n else 87 + n)%N.

(** ['\\u{0:04x}'.format(n)] *)
Definition u_escape (n : N) : str :=
  [92; 117;
   hex_digit ((n / 4096) mod 16); hex_digit ((n / 256) mod 16);
   hex_digit ((n / 16) mod 16); hex_digit (n mod 16)]%N.

(** One code point under [ESCAPE_ASCII]: the quote, the backslash and the
    five short escapes; printable ASCII as it is; everything else as
    [\uXXXX], above the basic plane as a surrogate pair. *)
Definition escape_char (c : N) : str :=
  (if c =? 34 then [92; 34]
   else if c =? 92 then [92; 92]
   else if c =? 10 then [92; 110]
   else if c =? 13 then [92; 114]
   else if c =? 9 then [92; 116]
   else if c =? 12 then [92; 102]
   else if c =? 8 then [92; 98]
   else if (32 <=? c) && (c <=? 126) then [c]
   else if c <? 65536 then u_escape c
   else
     let v := c - 65536 in
     u_escape (N.lor 55296 (N.land (N.shiftr v 10) 1023))
       ++ u_escape (N.lor 56320 (N.land v 1023)))%N.

Definition encode_basestring_ascii (s : str) : str :=
  [34%N] ++ concat (map escape_char s) ++ [34%N].

Definition int_repr (z : Z) : str :=
  lit (NilZero.string_of_int (Z.to_int z)).

(** The text [json.dumps] returns; [json_dumps] below is the call, which
    raises on a value that holds a [VObject] and so never returns the text
    given for it here. *)
Fixpoint dumps (v : value) : str :=
  match v with
  | VNone => lit "null"
  | VBool true => lit "true"
  | VBool false => lit "false"
  | VInt z => int_repr z
  | VFloat text => text
  | VStr s => encode_basestring_ascii s
  | VList l =>
      let fix items (l : list value) : str :=
        match l with
        | [] => []
        | [x] => dumps x
        | x :: rest => dumps x ++ lit ", " ++ items rest
        end in
      lit "[" ++ items l ++ lit "]"
  | VDict d =>
      let fix items (d : list (str * value)) : str :=
        match d with
        | [] => []
        | [(k, x)] => encode_basestring_ascii k ++ lit ": " ++ dumps x
        | (k, x) :: rest =>
            encode_basestring_ascii k ++ lit ": " ++ dumps x
              ++ lit ", " ++ items rest
        end in
      lit "{" ++ items d ++ lit "}"
  | VObject => []
  end.

Arguments dumps : simpl never.

(** What the default encoder accepts: every value that holds no object of
    an unknown type. *)
Fixpoint serialisable (v : value) : bool :=
  match v with
  | VObject => false
  | VList l =>
      (fix items (l : list value) : bool :=
         match l with
         | [] => true
         | x :: rest => serialisable x && items rest
         end) l
  | VDict d =>
      (fix items (d : list (str * value)) : bool :=
         match d with
         | [] => true
         | (_, x) :: rest => serialisable x && items rest
         end) d
  | _ => true
  end.

(** ** Exceptions *)

Inductive Exn :=
  | AttributeError     (* attribute access on None *)
  | ValueError         (* malformed input, e.g. json.JSONDecodeError *)
  | TypeError          (* json.dumps on an object it cannot encode *)
  | StorageError       (* the store failed *)
  | IntegrityError.    (* primary key already taken *)

(** What a call does: it returns a value or raises. *)
Inductive Result (A : Type) :=
  | Ok (a : A)
  | Raise (e : Exn).
Arguments Ok {A} a.
Arguments Raise {A} e.

Definition succeeded {A} (r : Result A) : bool :=
  match r with Ok _ => true | Raise _ => false end.

(** The call [json.dumps(v)]: the text, or [TypeError] on a value the
    encoder does not accept. *)
Definition json_dumps (v : value) : Result str :=
  if serialisable v then Ok (dumps v) else Raise TypeError.

Arguments json_dumps : simpl never.

(** The code point a UTF-16 surrogate pair stands for. *)
Definition surrogate_pair (hi lo : N) : N :=
  (65536 + N.shiftl (hi - 55296) 10 + (lo - 56320))%N.

End Py.

(* ===================================================================== *)
(** * The iteration lifecycle controller *)
(* ===================================================================== *)

Module Iteration.
Import Py.

(** ** Data model *)

(** Enumerations of models/workflow.py and core/workflow/entities; the
    controller only ever stores the members named in its source. *)
Inductive WorkflowNodeExecutionStatus := RUNNING | SUCCEEDED | FAILED.
Inductive WorkflowNodeExecutionTriggeredFrom := SINGLE_STEP | WORKFLOW_RUN.
Inductive NodeType := ITERATION | OTHER_NODE_TYPE (value : str).

(** The fields of a workflow run that the controller reads. *)
Module WorkflowRun.
Record t := mk {
    id : str;
    tenant_id : str;
    app_id : str;
    workflow_id : str;
    created_by_role : str;
    created_by : str
  }.
End WorkflowRun.

(** The durable execution record.  [outputs] and [elapsed_time] are not
    given to the constructor; they stay [None] until completion. *)
Module WorkflowNodeExecution.
Record t := mk {
    id : str;
    tenant_id : str;
    app_id : str;
    workflow_id : str;
    triggered_from : WorkflowNodeExecutionTriggeredFrom;
    workflow_run_id : str;
    predecessor_node_id : option str;
    index : Z;
    node_id : str;
    node_type : NodeType;
    title : str;
    status : WorkflowNodeExecutionStatus;
    created_by_role : str;
    created_by : str;
    execution_metadata : str;
    outputs : option str;
    elapsed_time : option Z
  }.

Definition set_execution_metadata (x : str) (r : t) : t :=
    mk (id r) (tenant_id r) (app_id r) (workflow_id r) (triggered_from r)
       (workflow_run_id r) (predecessor_node_id r) (index r) (node_id r)
       (node_type r) (title r) (status r) (created_by_role r) (created_by r)
       x (outputs r) (elapsed_time r).

Definition set_status (x : WorkflowNodeExecutionStatus) (r : t) : t :=
    mk (id r) (tenant_id r) (app_id r) (workflow_id r) (triggered_from r)
       (workflow_run_id r) (predecessor_node_id r) (index r) (node_id r)
       (node_type r) (title r) x (created_by_role r) (created_by r)
       (execution_metadata r) (outputs r) (elapsed_time r).

Definition set_outputs (x : str) (r : t) : t :=
    mk (id r) (tenant_id r) (app_id r) (workflow_id r) (triggered_from r)
       (workflow_run_id r) (predecessor_node_id r) (index r) (node_id r)
       (node_type r) (title r) (status r) (created_by_role r) (created_by r)
       (execution_metadata r) (Some x) (elapsed_time r).

Definition set_elapsed_time (x : Z) (r : t) : t :=
    mk (id r) (tenant_id r) (app_id r) (workflow_id r) (triggered_from r)
       (workflow_run_id r) (predecessor_node_id r) (index r) (node_id r)
       (node_type r) (title r) (status r) (created_by_role r) (created_by r)
       (execution_metadata r) (outputs r) (Some x).
End WorkflowNodeExecution.

Module NodeExecutionInfo.
Record t := mk {
    workflow_node_execution_id : str;
    node_type : NodeType;
    start_at : Z
  }.
End NodeExecutionInfo.

(** [WorkflowIterationState.Data]: one entry of the Iteration State Table. *)
Module Data.
Record t := mk {
    parent_iteration_id : option str;
    iteration_id : str;
    current_index : Z;
    iteration_steps_boundary : list Z;
    node_execution_id : str;
    started_at : Z
  }.

Definition set_current_index (x : Z) (d : t) : t :=
    mk (parent_iteration_id d) (iteration_id d) x
       (iteration_steps_boundary d) (node_execution_id d) (started_at d).

  (** [d.iteration_steps_boundary.append(x)] *)
Definition append_steps_boundary (x : Z) (d : t) : t :=
    mk (parent_iteration_id d) (iteration_id d) (current_index d)
       (iteration_steps_boundary d ++ [x]) (node_execution_id d)
       (started_at d).
End Data.

Module WorkflowIterationState.
Record t := mk { current_iterations : gmap str Data.t }.
End WorkflowIterationState.

(** The three lifecycle events, with the fields the controller reads. *)
Module QueueIterationStartEvent.
Record t := mk {
    node_id : str;
    node_run_index : Z;
    predecessor_node_id : option str
  }.
End QueueIterationStartEvent.

Module QueueIterationNextEvent.
Record t := mk {
    node_id : str;
    index : Z;
    node_run_index : Z;
    output : value
  }.
End QueueIterationNextEvent.

Module QueueIterationCompletedEvent.
Record t := mk {
    node_id : str;
    outputs : value
  }.
End QueueIterationCompletedEvent.

Inductive Event :=
  | Start (e : QueueIterationStartEvent.t)
  | Next (e : QueueIterationNextEvent.t)
  | Completed (e : QueueIterationCompletedEvent.t).

(** The loop identifier an event is about. *)
Definition event_node_id (ev : Event) : str :=
  match ev with
  | Start e => QueueIterationStartEvent.node_id e
  | Next e => QueueIterationNextEvent.node_id e
  | Completed e => QueueIterationCompletedEvent.node_id e
  end.

(** The outward notifications. *)
Module StartData.
Record t := mk {
    id : str; node_id : str; created_at : Z; extras : list (str * value)
  }.
End StartData.

Module NextData.
Record t := mk {
    id : str; node_id : str; index : Z; output : value; created_at : Z;
    extras : list (str * value)
  }.
End NextData.

Module CompletedData.
Record t := mk {
    id : str; node_id : str; outputs : value; created_at : Z;
    extras : list (str * value)
  }.
End CompletedData.

Inductive StreamResponse :=
  | IterationNodeStartStreamResponse
      (task_id : str) (workflow_run_id : option str) (data : StartData.t)
  | IterationNodeNextStreamResponse
      (task_id : str) (workflow_run_id : option str) (data : NextData.t)
  | IterationNodeCompletedStreamResponse
      (task_id : str) (workflow_run_id : option str) (data : CompletedData.t).

(** The part of the task state the controller touches. *)
Module TaskState.
Record t := mk {
    workflow_run_id : option str;
    ran_node_execution_infos : gmap str NodeExecutionInfo.t;
    latest_node_execution_info : option NodeExecutionInfo.t
  }.
End TaskState.

(** ** The world a handler runs in

    The controller object ([_iteration_state], [_task_state]), the two
    tables of the execution record store it queries, the last reading of
    the monotonic clock, and the number of interactions with the
    environment so far. *)
Record World := mkWorld {
  _iteration_state : option WorkflowIterationState.t;
  _task_state : TaskState.t;
  db_runs : gmap str WorkflowRun.t;
  db_executions : gmap str WorkflowNodeExecution.t;
  perf_now : Z;
  env_step : nat
}.

Definition set_iteration_state (x : option WorkflowIterationState.t)
    (w : World) : World :=
  mkWorld x (_task_state w) (db_runs w) (db_executions w) (perf_now w)
          (env_step w).

Definition set_task_state (x : TaskState.t) (w : World) : World :=
  mkWorld (_iteration_state w) x (db_runs w) (db_executions w) (perf_now w)
          (env_step w).

Definition set_db_executions (x : gmap str WorkflowNodeExecution.t)
    (w : World) : World :=
  mkWorld (_iteration_state w) (_task_state w) (db_runs w) x (perf_now w)
          (env_step w).

Definition set_perf_now (x : Z) (w : World) : World :=
  mkWorld (_iteration_state w) (_task_state w) (db_runs w) (db_executions w)
          x (env_step w).

Definition set_env_step (x : nat) (w : World) : World :=
  mkWorld (_iteration_state w) (_task_state w) (db_runs w) (db_executions w)
          (perf_now w) x.

(** What the environment answers at its k-th interaction: whether a round
    trip to the store fails, by how much the monotonic clock has advanced,
    the wall clock in whole seconds, the identifier the store assigns to a
    new row. *)
Record Oracle := mkOracle {
  db_fault : nat -> bool;
  perf_tick : nat -> N;
  wall_clock : nat -> Z;
  new_uuid : nat -> str
}.

(** ** The handler monad *)

Definition M (A : Type) : Type := World -> Result A * World.

Definition ret {A} (a : A) : M A := fun w => (Ok a, w).
Definition raise {A} (e : Exn) : M A := fun w => (Raise e, w).
Definition bind {A B} (m : M A) (k : A -> M B) : M B :=
  fun w =>
    match m w with
    | (Ok a, w') => k a w'
    | (Raise e, w') => (Raise e, w')
    end.
(** A call that touches no state: it returns or raises where it stands. *)
Definition call {A} (r : Result A) : M A := fun w => (r, w).
Definition get : M World := fun w => (Ok w, w).
Definition modify (f : World -> World) : M unit := fun w => (Ok tt, f w).

Declare Scope py_scope.
Delimit Scope py_scope with py.
Notation "x <- m ;; k" := (bind m (fun x => k))
  (at level 100, m at next level, right associativity) : py_scope.
Notation "m ;; k" := (bind m (fun _ => k))
  (at level 100, right associativity) : py_scope.
Local Open Scope py_scope.

(** ** Handlers *)

Section Controller.

Variable env : Oracle.

(** One interaction with the environment. *)
Definition env_tick : M nat :=
  fun w => (Ok (env_step w), set_env_step (S (env_step w)) w).

(** [time.perf_counter()]: the monotonic clock never goes backwards. *)
Definition time_perf_counter : M Z :=
  k <- env_tick ;;
  w <- get ;;
  let t := perf_now w + Z.of_N (perf_tick env k) in
  modify (set_perf_now t) ;;
  ret t.

(** [int(time.time())] *)
Definition int_time_time : M Z :=
  k <- env_tick ;;
  ret (wall_clock env k).

(** A round trip to the execution record store; it may fail. *)
Definition db_round_trip : M unit :=
  k <- env_tick ;;
  if db_fault env k then raise StorageError else ret tt.

(** [db.session.query(WorkflowRun).filter(WorkflowRun.id == run_id).first()] *)
Definition db_query_workflow_run (run_id : option str)
    : M (option WorkflowRun.t) :=
  db_round_trip ;;
  w <- get ;;
  ret (match run_id with
       | Some r => db_runs w !! r
       | None => None
       end).

(** [db.session.query(WorkflowNodeExecution)
       .filter(WorkflowNodeExecution.id == execution_id).first()] *)
Definition db_query_node_execution (execution_id : str)
    : M (option WorkflowNodeExecution.t) :=
  db_round_trip ;;
  w <- get ;;
  ret (db_executions w !! execution_id).

(** [db.session.add(row); db.session.commit()] for a new row: the store
    assigns the primary key, and refuses one that is taken. *)
Definition db_add_commit (row : str -> WorkflowNodeExecution.t)
    : M WorkflowNodeExecution.t :=
  db_round_trip ;;
  k <- env_tick ;;
  w <- get ;;
  let new_id := new_uuid env k in
  match db_executions w !! new_id with
  | Some _ => raise IntegrityError
  | None =>
      modify (set_db_executions (<[new_id := row new_id]> (db_executions w))) ;;
      ret (row new_id)
  end.

(** [db.session.refresh(row)] *)
Definition db_refresh (row : WorkflowNodeExecution.t)
    : M WorkflowNodeExecution.t :=
  db_round_trip ;;
  w <- get ;;
  match db_executions w !! WorkflowNodeExecution.id row with
  | Some stored => ret stored
  | None => raise StorageError
  end.

(** [db.session.commit()] after attribute assignments on a fetched row. *)
Definition db_commit (row : WorkflowNodeExecution.t) : M unit :=
  db_round_trip ;;
  w <- get ;;
  modify (set_db_executions
            (<[WorkflowNodeExecution.id row := row]> (db_executions w))).

(** [db.session.close()] *)
Definition db_close : M unit := ret tt.

(** [self._iteration_state.current_iterations]; [self._iteration_state] is
    [None] until [_init_iteration_state] has run. *)
Definition self_current_iterations : M (gmap str Data.t) :=
  w <- get ;;
  match _iteration_state w with
  | None => raise AttributeError
  | Some st => ret (WorkflowIterationState.current_iterations st)
  end.

Definition set_current_iterations (m : gmap str Data.t) : M unit :=
  modify (set_iteration_state (Some (WorkflowIterationState.mk m))).

(** Lines 31-35.  A model object is truthy whatever it holds, so
    [not self._iteration_state] holds for [None] only. *)
Definition _init_iteration_state : M unit :=
  w <- get ;;
  match _iteration_state w with
  | None =>
      modify (set_iteration_state (Some (WorkflowIterationState.mk ∅)))
  | Some _ => ret tt
  end.

(** Lines 37-80. *)
Definition _handle_iteration_to_stream_response (task_id : str) (event : Event)
    : M StreamResponse :=
  match event with
  | Start event =>
      w <- get ;;
      created_at <- int_time_time ;;
      ret (IterationNodeStartStreamResponse task_id
             (TaskState.workflow_run_id (_task_state w))
             (StartData.mk (QueueIterationStartEvent.node_id event)
                           (QueueIterationStartEvent.node_id event)
                           created_at []))
  | Next event =>
      w <- get ;;
      created_at <- int_time_time ;;
      ret (IterationNodeNextStreamResponse task_id
             (TaskState.workflow_run_id (_task_state w))
             (NextData.mk (QueueIterationNextEvent.node_id event)
                          (QueueIterationNextEvent.node_id event)
                          (QueueIterationNextEvent.index event)
                          (QueueIterationNextEvent.output event)
                          created_at []))
  | Completed event =>
      w <- get ;;
      created_at <- int_time_time ;;
      ret (IterationNodeCompletedStreamResponse task_id
             (TaskState.workflow_run_id (_task_state w))
             (CompletedData.mk (QueueIterationCompletedEvent.node_id event)
                               (QueueIterationCompletedEvent.node_id event)
                               (QueueIterationCompletedEvent.outputs event)
                               created_at []))
  end.

(** The metadata blob written at creation (lines 104-108). *)
Definition initial_metadata (node_run_index : Z) : value :=
  VDict [(lit "started_run_index", VInt (node_run_index + 1));
         (lit "current_index", VInt 0);
         (lit "steps_boundary", VList [])].

(** Lines 82-116.  [workflow_run] is what the query of line 129 returned;
    reading [workflow_run.tenant_id] on [None] raises.  The arguments of
    the constructor are evaluated in order, so [json.dumps] of line 104
    runs after that read and before the row reaches the store. *)
Definition _init_iteration_execution_from_workflow_run
    (workflow_run : option WorkflowRun.t) (node_id : str)
    (node_type : NodeType) (node_title : str) (node_run_index : Z)
    (predecessor_node_id : option str) : M WorkflowNodeExecution.t :=
  match workflow_run with
  | None => raise AttributeError
  | Some workflow_run =>
      execution_metadata <-
        call (json_dumps (initial_metadata node_run_index)) ;;
      let workflow_node_execution := fun id =>
        WorkflowNodeExecution.mk id
          (WorkflowRun.tenant_id workflow_run)
          (WorkflowRun.app_id workflow_run)
          (WorkflowRun.workflow_id workflow_run)
          WORKFLOW_RUN
          (WorkflowRun.id workflow_run)
          predecessor_node_id
          node_run_index
          node_id
          node_type
          node_title
          RUNNING
          (WorkflowRun.created_by_role workflow_run)
          (WorkflowRun.created_by workflow_run)
          execution_metadata
          None None in
      workflow_node_execution <- db_add_commit workflow_node_execution ;;
      workflow_node_execution <- db_refresh workflow_node_execution ;;
      db_close ;;
      ret workflow_node_execution
  end.

(** Lines 126-159. *)
Definition _handle_iteration_started (event : QueueIterationStartEvent.t)
    : M WorkflowNodeExecution.t :=
  _init_iteration_state ;;
  w <- get ;;
  workflow_run <-
    db_query_workflow_run (TaskState.workflow_run_id (_task_state w)) ;;
  workflow_node_execution <-
    _init_iteration_execution_from_workflow_run
      workflow_run
      (QueueIterationStartEvent.node_id event)
      ITERATION
      (QueueIterationStartEvent.node_id event)
      (QueueIterationStartEvent.node_run_index event)
      (QueueIterationStartEvent.predecessor_node_id event) ;;
  start_at <- time_perf_counter ;;
  let latest_node_execution_info :=
    NodeExecutionInfo.mk
      (WorkflowNodeExecution.id workflow_node_execution) ITERATION start_at in
  modify (fun w =>
    set_task_state
      (TaskState.mk
         (TaskState.workflow_run_id (_task_state w))
         (<[QueueIterationStartEvent.node_id event :=
              latest_node_execution_info]>
            (TaskState.ran_node_execution_infos (_task_state w)))
         (Some latest_node_execution_info)) w) ;;
  started_at <- time_perf_counter ;;
  current_iterations <- self_current_iterations ;;
  set_current_iterations
    (<[QueueIterationStartEvent.node_id event :=
         Data.mk None (QueueIterationStartEvent.node_id event) 0 []
                 (WorkflowNodeExecution.id workflow_node_execution)
                 started_at]> current_iterations) ;;
  db_close ;;
  ret workflow_node_execution.

(** The metadata blob written on a next event (lines 171-175). *)
Definition next_metadata (node_run_index index : Z) (steps_boundary : list Z)
    : value :=
  VDict [(lit "started_run_index", VInt (node_run_index + 1));
         (lit "current_index", VInt index);
         (lit "steps_boundary", VList (map VInt steps_boundary))].

(** Lines 161-178.  In the assignment of line 171 the right-hand side,
    [json.dumps], is evaluated before the attribute of the fetched row is
    set. *)
Definition _handle_iteration_next (event : QueueIterationNextEvent.t)
    : M (option WorkflowNodeExecution.t) :=
  current_iterations <- self_current_iterations ;;
  match current_iterations !! QueueIterationNextEvent.node_id event with
  | None => ret None
  | Some current_iteration =>
      let current_iteration :=
        Data.set_current_index (QueueIterationNextEvent.index event)
          current_iteration in
      let current_iteration :=
        Data.append_steps_boundary
          (QueueIterationNextEvent.node_run_index event) current_iteration in
      set_current_iterations
        (<[QueueIterationNextEvent.node_id event := current_iteration]>
           current_iterations) ;;
      workflow_node_execution <-
        db_query_node_execution (Data.node_execution_id current_iteration) ;;
      execution_metadata <-
        call (json_dumps (next_metadata
                            (QueueIterationNextEvent.node_run_index event)
                            (QueueIterationNextEvent.index event)
                            (Data.iteration_steps_boundary current_iteration))) ;;
      match workflow_node_execution with
      | None => raise AttributeError
      | Some workflow_node_execution =>
          let workflow_node_execution :=
            WorkflowNodeExecution.set_execution_metadata
              execution_metadata workflow_node_execution in
          db_commit workflow_node_execution ;;
          db_close ;;
          ret None
      end
  end.

(** The outputs blob written on completion (lines 190-192). *)
Definition completed_outputs (outputs : value) : value :=
  VDict [(lit "output", outputs)].

(** Lines 180-199.  Line 189 sets the status on the fetched row (on [None]
    it raises); line 190 then serialises [event.outputs], and [json.dumps]
    raises [TypeError] on outputs it cannot encode: this is before the
    clock is read, before anything is committed and before the entry is
    popped.  The status set at line 189 is then on the fetched object
    only. *)
Definition _handle_iteration_completed (event : QueueIterationCompletedEvent.t)
    : M (option WorkflowNodeExecution.t) :=
  current_iterations <- self_current_iterations ;;
  match current_iterations !! QueueIterationCompletedEvent.node_id event with
  | None => ret None
  | Some current_iteration =>
      workflow_node_execution <-
        db_query_node_execution (Data.node_execution_id current_iteration) ;;
      match workflow_node_execution with
      | None => raise AttributeError
      | Some workflow_node_execution =>
          let workflow_node_execution :=
            WorkflowNodeExecution.set_status SUCCEEDED
              workflow_node_execution in
          outputs <-
            call (json_dumps (completed_outputs
                                (QueueIterationCompletedEvent.outputs event))) ;;
          let workflow_node_execution :=
            WorkflowNodeExecution.set_outputs outputs workflow_node_execution in
          now <- time_perf_counter ;;
          let workflow_node_execution :=
            WorkflowNodeExecution.set_elapsed_time
              (now - Data.started_at current_iteration)
              workflow_node_execution in
          db_commit workflow_node_execution ;;
          db_close ;;
          current_iterations <- self_current_iterations ;;
          set_current_iterations
            (delete (QueueIterationCompletedEvent.node_id event)
                    current_iterations) ;;
          ret None
      end
  end.

(** Lines 118-124. *)
Definition _handle_iteration_operation (event : Event)
    : M (option WorkflowNodeExecution.t) :=
  match event with
  | Start event =>
      r <- _handle_iteration_started event ;;
      ret (Some r)
  | Next event => _handle_iteration_next event
  | Completed event => _handle_iteration_completed event
  end.

End Controller.

(** ** Observations on a world *)

(** The Iteration State Table; before initialisation it has no entry. *)
Definition table (w : World) : gmap str Data.t :=
  match _iteration_state w with
  | Some st => WorkflowIterationState.current_iterations st
  | None => ∅
  end.

(** No storage fault within the next [n] interactions with the
    environment. *)
Definition quiet (env : Oracle) (w : World) (n : nat) : Prop :=
  forall j, (j < n)%nat -> db_fault env (env_step w + j) = false.

(** The run the start handler resolves (line 129). *)
Definition resolved_run (w : World) : option WorkflowRun.t :=
  match TaskState.workflow_run_id (_task_state w) with
  | Some r => db_runs w !! r
  | None => None
  end.

(** The entry after lines 165-166. *)
Definition next_entry (e : QueueIterationNextEvent.t) (d : Data.t) : Data.t :=
  Data.append_steps_boundary (QueueIterationNextEvent.node_run_index e)
    (Data.set_current_index (QueueIterationNextEvent.index e) d).

(** The record after lines 171-175. *)
Definition next_record (e : QueueIterationNextEvent.t) (d : Data.t)
    (r : WorkflowNodeExecution.t) : WorkflowNodeExecution.t :=
  WorkflowNodeExecution.set_execution_metadata
    (dumps (next_metadata (QueueIterationNextEvent.node_run_index e)
              (QueueIterationNextEvent.index e)
              (Data.iteration_steps_boundary (next_entry e d)))) r.

(** The record after lines 189-193, completed at clock reading [now]. *)
Definition completed_record (e : QueueIterationCompletedEvent.t) (d : Data.t)
    (now : Z) (r : WorkflowNodeExecution.t) : WorkflowNodeExecution.t :=
  WorkflowNodeExecution.set_elapsed_time (now - Data.started_at d)
    (WorkflowNodeExecution.set_outputs
       (dumps (completed_outputs (QueueIterationCompletedEvent.outputs e)))
       (WorkflowNodeExecution.set_status SUCCEEDED r)).

(** The record of lines 90-109, under the key the store assigns. *)
Definition started_record (run : WorkflowRun.t)
    (e : QueueIterationStartEvent.t) (id : str) : WorkflowNodeExecution.t :=
  WorkflowNodeExecution.mk id
    (WorkflowRun.tenant_id run) (WorkflowRun.app_id run)
    (WorkflowRun.workflow_id run) WORKFLOW_RUN (WorkflowRun.id run)
    (QueueIterationStartEvent.predecessor_node_id e)
    (QueueIterationStartEvent.node_run_index e)
    (QueueIterationStartEvent.node_id e) ITERATION
    (QueueIterationStartEvent.node_id e) RUNNING
    (WorkflowRun.created_by_role run) (WorkflowRun.created_by run)
    (dumps (initial_metadata (QueueIterationStartEvent.node_run_index e)))
    None None.

(** The entry of lines 148-155. *)
Definition started_entry (e : QueueIterationStartEvent.t)
    (execution_id : str) (started_at : Z) : Data.t :=
  Data.mk None (QueueIterationStartEvent.node_id e) 0 [] execution_id
          started_at.

(** ** Sequences of events *)

(** The controller handles the events one after the other; the trace keeps,
    for each, whether its handler returned. *)
Fixpoint process (env : Oracle) (evs : list Event) (w : World)
    : list (Event * bool) * World :=
  match evs with
  | [] => ([], w)
  | ev :: rest =>
      let (r, w') := _handle_iteration_operation env ev w in
      let (trace, w'') := process env rest w' in
      ((ev, succeeded r) :: trace, w'')
  end.

Definition is_start_for (X : str) (ev : Event) : bool :=
  match ev with
  | Start e => bool_decide (QueueIterationStartEvent.node_id e = X)
  | _ => false
  end.

Definition is_next_for (X : str) (ev : Event) : bool :=
  match ev with
  | Next e => bool_decide (QueueIterationNextEvent.node_id e = X)
  | _ => false
  end.

Definition is_completed_for (X : str) (ev : Event) : bool :=
  match ev with
  | Completed e => bool_decide (QueueIterationCompletedEvent.node_id e = X)
  | _ => false
  end.

(** No completed event for [X] was handled to the end in the trace. *)
Definition not_completed (X : str) (trace : list (Event * bool)) : Prop :=
  forall ev, (ev, true) ∈ trace -> is_completed_for X ev = false.

(** A start event for [X] was handled to the end, and no completed event
    for [X] after it. *)
Definition started_not_completed (X : str) (trace : list (Event * bool))
    : Prop :=
  exists before ev after,
    trace = before ++ (ev, true) :: after
    /\ is_start_for X ev = true
    /\ not_completed X after.

(** The run indices of the next events for [X], in order. *)
Definition next_run_indices (X : str) (evs : list Event) : list Z :=
  flat_map
    (fun ev =>
       match ev with
       | Next e =>
           if bool_decide (QueueIterationNextEvent.node_id e = X)
           then [QueueIterationNextEvent.node_run_index e]
           else []
       | _ => []
       end) evs.

(** Neither a start nor a completed event for [X] among the events. *)
Definition only_next_for (X : str) (evs : list Event) : Prop :=
  Forall (fun ev => is_start_for X ev = false
                    /\ is_completed_for X ev = false) evs.

(** ** Reachable worlds *)

(** A controller that has handled nothing yet, over a store whose rows sit
    under their primary key. *)
Definition initial (w : World) : Prop :=
  _iteration_state w = None
  /\ forall k r, db_executions w !! k = Some r ->
                 WorkflowNodeExecution.id r = k.

Inductive reachable (env : Oracle) : World -> Prop :=
  | reachable_initial w :
      initial w -> reachable env w
  | reachable_operation w ev :
      reachable env w ->
      reachable env (snd (_handle_iteration_operation env ev w))
  | reachable_response w task_id ev :
      reachable env w ->
      reachable env
        (snd (_handle_iteration_to_stream_response env task_id ev w)).

(** Every row sits under its key; every entry points to a stored row and
    was started no later than the last clock reading. *)
Definition well_formed (w : World) : Prop :=
  (forall k r, db_executions w !! k = Some r ->
               WorkflowNodeExecution.id r = k)
  /\ (forall X d, table w !! X = Some d ->
        is_Some (db_executions w !! Data.node_execution_id d)
        /\ Data.started_at d <= perf_now w).

(** Every entry sits under its own loop identifier, has no parent and
    points to a record of that loop that is still RUNNING; no two entries
    point to the same record. *)
Definition coherent (w : World) : Prop :=
  (forall X d, table w !! X = Some d ->
     Data.iteration_id d = X
     /\ Data.parent_iteration_id d = None
     /\ exists r, db_executions w !! Data.node_execution_id d = Some r
          /\ WorkflowNodeExecution.node_id r = X
          /\ WorkflowNodeExecution.status r = RUNNING)
  /\ (forall X Y dX dY,
        table w !! X = Some dX -> table w !! Y = Some dY ->
        Data.node_execution_id dX = Data.node_execution_id dY -> X = Y).

(** The pass index of the last next event for [X] among the events, or
    [start] when there is none. *)
Definition last_next_index (X : str) (start : Z) (evs : list Event) : Z :=
  fold_left
    (fun acc ev =>
       match ev with
       | Next e =>
           if bool_decide (QueueIterationNextEvent.node_id e = X)
           then QueueIterationNextEvent.index e
           else acc
       | _ => acc
       end) evs start.

End Iteration.

(* ===================================================================== *)
(** * The tool-provider icon resolver *)
(* ===================================================================== *)

Module ToolTransform.
Import Py.

Section Resolver.

(** [current_app.config.get("CONSOLE_API_URL")]: the application
    configuration, declared elsewhere, defines it. *)
Variable CONSOLE_API_URL : str.

(** The [.value] of the members of [UserToolProvider.ProviderType],
    declared in core/tools/entities/user_entities.py. *)
Variables BUILTIN MODEL API WORKFLOW : str.

(** [json.loads] of the Python standard library. *)
Variable json_loads : str -> Result value.

(** The literal of lines 40-43; its [content] is written as the two
    escapes \ud83d and \ude01. *)
Definition default_icon : value :=
  VDict [(lit "background", VStr (lit "#252525"));
         (lit "content", VStr [55357%N; 56833%N])].

(** [try: return body  except: return fallback]: a bare [except] catches
    whatever is raised. *)
Definition try_except {A} (body : Result A) (fallback : Result A)
    : Result A :=
  match body with
  | Ok a => Ok a
  | Raise _ => fallback
  end.

(** Lines 24-44. *)
Definition get_tool_provider_icon_url (provider_type provider_name icon : str)
    : Result value :=
  let url_prefix :=
    CONSOLE_API_URL ++ lit "/console/api/workspaces/current/tool-provider/" in
  if bool_decide (provider_type = BUILTIN) then
    Ok (VStr (((url_prefix ++ lit "builtin/") ++ provider_name) ++ lit "/icon"))
  else if bool_decide (provider_type = MODEL) then
    Ok (VStr (((url_prefix ++ lit "model/") ++ provider_name) ++ lit "/icon"))
  else if bool_decide (provider_type ∈ [API; WORKFLOW]) then
    try_except (json_loads icon) (Ok default_icon)
  else
    Ok (VStr []).

End Resolver.

End ToolTransform.

(* ===================================================================== *)
(** * The parameters of a user tool *)
(* ===================================================================== *)

Module ToolParameters.
Import Py.

Section Override.

(** [ToolParameter] and [ToolParameter.ToolParameterForm] are declared in
    core/tools/entities/tool_entities.py; the code at hand reads the name
    and the form of a parameter and names the member [FORM]. *)
Variable ToolParameter : Type.
Variable Form : Type.
Context `{EqDecision Form}.
Variable name : ToolParameter -> str.
Variable form : ToolParameter -> Form.
Variable FORM : Form.

(** The test of line 273. *)
Definition overrides (parameter runtime_parameter : ToolParameter) : bool :=
  bool_decide (name parameter = name runtime_parameter)
  && bool_decide (form parameter = form runtime_parameter).

(** The inner loop, lines 271-276: the first parameter of the same name and
    form is replaced; [None] when the loop ends with [found] still
    [False]. *)
Fixpoint replace_first (runtime_parameter : ToolParameter)
    (current_parameters : list ToolParameter) : option (list ToolParameter) :=
  match current_parameters with
  | [] => None
  | parameter :: rest =>
      if overrides parameter runtime_parameter
      then Some (runtime_parameter :: rest)
      else match replace_first runtime_parameter rest with
           | Some rest' => Some (parameter :: rest')
           | None => None
           end
  end.

(** One pass of the outer loop, lines 270-279. *)
Definition override_one (current_parameters : list ToolParameter)
    (runtime_parameter : ToolParameter) : list ToolParameter :=
  match replace_first runtime_parameter current_parameters with
  | Some replaced => replaced
  | None =>
      if bool_decide (form runtime_parameter = FORM)
      then current_parameters ++ [runtime_parameter]
      else current_parameters
  end.

(** [x or []] *)
Definition or_empty (x : option (list ToolParameter)) : list ToolParameter :=
  match x with
  | Some l => l
  | None => []
  end.

(** Lines 265-279 of [tool_to_user_tool]: [parameters] is
    [tool.parameters] and [runtime_parameters] is what
    [tool.get_runtime_parameters()] returned. *)
Definition current_parameters (parameters : option (list ToolParameter))
    (runtime_parameters : option (list ToolParameter))
    : list ToolParameter :=
  let parameters := or_empty parameters in
  let runtime_parameters := or_empty runtime_parameters in
  fold_left override_one runtime_parameters parameters.

(** What identifies a parameter in the loop. *)
Definition key (p : ToolParameter) : str * Form := (name p, form p).

End Override.

End ToolParameters.

(* ===================================================================== *)
(** * Repacking a provider *)
(* ===================================================================== *)

Module Repack.
Import Py ToolTransform.

(** [UserToolProvider], declared in core/tools/entities/user_entities.py:
    the fields [repack_provider] reads; [type_value] is [type.value]. *)
Module UserToolProvider.
Record t := mk {
  type_value : str;
  name : str;
  icon : value
}.
End UserToolProvider.

Section Repack.

Variable CONSOLE_API_URL : str.
Variables BUILTIN MODEL API WORKFLOW : str.
Variable json_loads : str -> Result value.

(** The provider may hold anything under its keys.  Below, [None] stands
    for a raised exception: a [KeyError] on a missing key, a [TypeError] on
    an operand that is not a str. *)

(** [v == s] for a str [s]. *)
Definition equals_str (v : value) (s : str) : bool :=
  match v with
  | VStr x => bool_decide (x = s)
  | _ => false
  end.

(** [json.loads(v)]: it parses a str and refuses any other object. *)
Definition loads_object (v : value) : option value :=
  match v with
  | VStr s =>
      match json_loads s with
      | Ok parsed => Some parsed
      | Raise _ => None
      end
  | _ => None
  end.

(** [prefix + provider_name + '/icon'] *)
Definition icon_path (prefix : str) (provider_name : value) : option value :=
  match provider_name with
  | VStr n => Some (VStr ((prefix ++ n) ++ lit "/icon"))
  | _ => None
  end.

(** Lines 24-44, on the objects [repack_provider] passes. *)
Definition icon_url (provider_type provider_name icon : value)
    : option value :=
  let url_prefix :=
    CONSOLE_API_URL ++ lit "/console/api/workspaces/current/tool-provider/" in
  if equals_str provider_type BUILTIN then
    icon_path (url_prefix ++ lit "builtin/") provider_name
  else if equals_str provider_type MODEL then
    icon_path (url_prefix ++ lit "model/") provider_name
  else if equals_str provider_type API || equals_str provider_type WORKFLOW
  then
    Some (match loads_object icon with
          | Some parsed => parsed
          | None => default_icon
          end)
  else
    Some (VStr []).

(** Lines 53-58: the provider is a dict; the result is the dict after the
    call. *)
Definition repack_provider_dict (provider : gmap str value)
    : option (gmap str value) :=
  match provider !! lit "icon" with
  | None => Some provider
  | Some icon =>
      provider_type ← provider !! lit "type";
      provider_name ← provider !! lit "name";
      new_icon ← icon_url provider_type provider_name icon;
      Some (<[lit "icon" := new_icon]> provider)
  end.

(** Lines 59-64: the provider is a [UserToolProvider]. *)
Definition repack_provider_user (provider : UserToolProvider.t)
    : option UserToolProvider.t :=
  new_icon ← icon_url (VStr (UserToolProvider.type_value provider))
                      (VStr (UserToolProvider.name provider))
                      (UserToolProvider.icon provider);
  Some (UserToolProvider.mk (UserToolProvider.type_value provider)
          (UserToolProvider.name provider) new_icon).

(** The provider types whose icon does not come from [json.loads]. *)
Definition icon_is_derived (provider_type : value) : bool :=
  equals_str provider_type BUILTIN
  || equals_str provider_type MODEL
  || negb (equals_str provider_type API || equals_str provider_type WORKFLOW).

End Repack.
End Repack.

(* ===================================================================== *)
(** * Concrete runs *)
(* ===================================================================== *)

Module Scenario.
Import Py Iteration.

(** An environment whose store never fails. *)
Definition calm : Oracle :=
  mkOracle (fun _ => false) (fun _ => 2%N) (fun _ => 1700000000)
           (fun k => lit "exec-" ++ [N.of_nat (48 + k)]).

(** An environment whose store fails at its second interaction, which is
    the insertion of the record when a start event is handled first. *)
Definition create_fails : Oracle :=
  mkOracle (fun k => Nat.eqb k 1) (fun _ => 2%N) (fun _ => 1700000000)
           (fun k => lit "exec-" ++ [N.of_nat (48 + k)]).

Definition run1 : WorkflowRun.t :=
  WorkflowRun.mk (lit "run1") (lit "tenant") (lit "app") (lit "workflow")
                 (lit "account") (lit "alice").

(** A controller that has handled no event yet. *)
Definition fresh : World :=
  mkWorld None (TaskState.mk (Some (lit "run1")) ∅ None)
          {[ lit "run1" := run1 ]} ∅ 100 0.

Definition start_loop1 : QueueIterationStartEvent.t :=
  QueueIterationStartEvent.mk (lit "loop1") 1 None.

Definition next_loop1_0 : QueueIterationNextEvent.t :=
  QueueIterationNextEvent.mk (lit "loop1") 0 3 VNone.

Definition next_loop1_1 : QueueIterationNextEvent.t :=
  QueueIterationNextEvent.mk (lit "loop1") 1 5 VNone.

Definition completed_loop1 : QueueIterationCompletedEvent.t :=
  QueueIterationCompletedEvent.mk (lit "loop1")
    (VDict [(lit "result", VStr (lit "ok"))]).

(** A completed event for [loop1] whose outputs hold an object the JSON
    encoder does not know. *)
Definition completed_loop1_object : QueueIterationCompletedEvent.t :=
  QueueIterationCompletedEvent.mk (lit "loop1")
    (VDict [(lit "result", VObject)]).

Definition next_loop99 : QueueIterationNextEvent.t :=
  QueueIterationNextEvent.mk (lit "loop99") 0 3 VNone.

Definition completed_loop99 : QueueIterationCompletedEvent.t :=
  QueueIterationCompletedEvent.mk (lit "loop99") VNone.

(** The world of Scenario A: [loop1] has been started. *)
Definition started : World :=
  snd (_handle_iteration_operation calm (Start start_loop1) fresh).

(** A [json.loads] that knows the three literal names and rejects the
    rest. *)
Definition loads_literals (s : str) : Result value :=
  if bool_decide (s = lit "null") then Ok VNone
  else if bool_decide (s = lit "true") then Ok (VBool true)
  else if bool_decide (s = lit "false") then Ok (VBool false)
  else Raise ValueError.

Definition start_loop2 : QueueIterationStartEvent.t :=
  QueueIterationStartEvent.mk (lit "loop2") 4 (Some (lit "loop1")).

(** [loop1] and then [loop2] have been started. *)
Definition started_two : World :=
  snd (_handle_iteration_operation calm (Start start_loop2) started).

(** A controller whose task state names no run. *)
Definition no_run : World :=
  mkWorld None (TaskState.mk None ∅ None) ∅ ∅ 0 0.

(** An environment whose store fails at its fourth interaction, the refresh
    of the new record when a start event is handled first. *)
Definition refresh_fails : Oracle :=
  mkOracle (fun k => Nat.eqb k 3) (fun _ => 2%N) (fun _ => 1700000000)
           (fun k => lit "exec-" ++ [N.of_nat (48 + k)]).

(** An environment whose store fails at its seventh interaction, the fetch
    of the record when a next event follows a first start event. *)
Definition fetch_fails : Oracle :=
  mkOracle (fun k => Nat.eqb k 6) (fun _ => 2%N) (fun _ => 1700000000)
           (fun k => lit "exec-" ++ [N.of_nat (48 + k)]).

Definition console_url : str := lit "https://console.example".

(** A provider dict of a builtin tool, before and after repacking. *)
Definition builtin_provider : gmap str value :=
  <[lit "type" := VStr (lit "builtin")]>
    (<[lit "name" := VStr (lit "weather")]>
       (<[lit "icon" := VStr (lit "icon.svg")]> ∅)).

Definition builtin_provider_repacked : gmap str value :=
  <[lit "icon" :=
      VStr (((console_url
              ++ lit "/console/api/workspaces/current/tool-provider/")
             ++ lit "builtin/") ++ lit "weather" ++ lit "/icon")]>
    builtin_provider.

(** A provider dict of an API tool whose icon is the JSON text [null]. *)
Definition api_provider : gmap str value :=
  <[lit "type" := VStr (lit "api")]>
    (<[lit "name" := VStr (lit "petstore")]>
       (<[lit "icon" := VStr (lit "null")]> ∅)).

(** A stand-in for a tool parameter: its name, whether its form is FORM,
    and a default value. *)
Definition parameter : Type := str * bool * Z.
Definition parameter_name (p : parameter) : str := p.1.1.
Definition parameter_is_form (p : parameter) : bool := p.1.2.

Definition declared_parameters : list parameter :=
  [(lit "query", false, 0); (lit "limit", true, 10)].

Definition runtime_only_parameters : list parameter :=
  [(lit "model", true, 1); (lit "debug", false, 1)].

End Scenario.

(* ===================================================================== *)
(** * Properties of the iteration lifecycle controller *)
(* ===================================================================== *)

Module IterationProps.
Import Py Iteration Scenario.
Local Open Scope py_scope.

(** ** What [json.dumps] accepts

    The metadata blobs hold integers only, so lines 104 and 171 never raise;
    the outputs blob of line 190 is accepted exactly when the outputs of the
    event are. *)

Lemma serialisable_ints (l : list Z) :
  serialisable (VList (map VInt l)) = true.
Proof. induction l as [|z l IH]; [reflexivity | exact IH]. Qed.

Lemma json_dumps_initial_metadata (node_run_index : Z) :
  json_dumps (initial_metadata node_run_index)
  = Ok (dumps (initial_metadata node_run_index)).
Proof. reflexivity. Qed.

Lemma json_dumps_next_metadata (node_run_index index : Z)
    (steps_boundary : list Z) :
  json_dumps (next_metadata node_run_index index steps_boundary)
  = Ok (dumps (next_metadata node_run_index index steps_boundary)).
Proof.
  unfold json_dumps.
  replace (serialisable (next_metadata node_run_index index steps_boundary))
    with (serialisable (VList (map VInt steps_boundary)) && true).
  - by rewrite serialisable_ints.
  - reflexivity.
Qed.

Lemma serialisable_completed_outputs (outputs : value) :
  serialisable (completed_outputs outputs) = serialisable outputs.
Proof. cbn. apply andb_true_r. Qed.

(** Unfolding of the monad and of the primitive operations. *)
Ltac unfold_prims :=
  unfold _handle_iteration_operation, _handle_iteration_started,
    _handle_iteration_next, _handle_iteration_completed,
    _init_iteration_execution_from_workflow_run,
    _handle_iteration_to_stream_response, _init_iteration_state,
    self_current_iterations, set_current_iterations,
    db_query_workflow_run, db_query_node_execution, db_add_commit,
    db_refresh, db_commit, db_close, db_round_trip,
    time_perf_counter, int_time_time, env_tick,
    bind, ret, raise, call, get, modify in *.

Ltac case_step :=
  match goal with
  | |- context [match ?x with _ => _ end] =>
      lazymatch x with
      | context [match _ with _ => _ end] => fail
      | _ => let E := fresh "E" in destruct x eqn:E
      end
  end.

Ltac run_handler :=
  unfold_prims; cbn;
  repeat (rewrite ?json_dumps_initial_metadata, ?json_dumps_next_metadata;
          case_step; simplify_eq; cbn in * ).

(** ** The handlers, path by path

    Each handler is a chain of monadic steps; the equations below spell out
    the outcome and the world reached on each of its paths. *)

Section Paths.

Variable env : Oracle.

Lemma init_iteration_state_unfold (w : World) :
  _init_iteration_state w =
    (Ok tt,
     match _iteration_state w with
     | None => set_iteration_state (Some (WorkflowIterationState.mk ∅)) w
     | Some _ => w
     end).
Proof. run_handler; reflexivity. Qed.

Lemma table_init (w : World) :
  table (snd (_init_iteration_state w)) = table w.
Proof.
  rewrite init_iteration_state_unfold. unfold table.
  destruct (_iteration_state w) eqn:E; cbn; [rewrite E|]; reflexivity.
Qed.

Lemma next_unfold (e : QueueIterationNextEvent.t) (w : World) :
  _handle_iteration_next env e w =
  match _iteration_state w with
  | None => (Raise AttributeError, w)
  | Some st =>
    let m := WorkflowIterationState.current_iterations st in
    match m !! QueueIterationNextEvent.node_id e with
    | None => (Ok None, w)
    | Some d =>
      let k := env_step w in
      let w1 :=
        set_iteration_state
          (Some (WorkflowIterationState.mk
                   (<[QueueIterationNextEvent.node_id e := next_entry e d]> m)))
          w in
      if db_fault env k then (Raise StorageError, set_env_step (S k) w1)
      else
        match db_executions w !! Data.node_execution_id d with
        | None => (Raise AttributeError, set_env_step (S k) w1)
        | Some r =>
          if db_fault env (S k)
          then (Raise StorageError, set_env_step (S (S k)) w1)
          else (Ok None,
                set_db_executions
                  (<[WorkflowNodeExecution.id r := next_record e d r]>
                     (db_executions w))
                  (set_env_step (S (S k)) w1))
        end
    end
  end.
Proof. run_handler; reflexivity. Qed.

Lemma completed_unfold (e : QueueIterationCompletedEvent.t) (w : World) :
  _handle_iteration_completed env e w =
  match _iteration_state w with
  | None => (Raise AttributeError, w)
  | Some st =>
    let m := WorkflowIterationState.current_iterations st in
    match m !! QueueIterationCompletedEvent.node_id e with
    | None => (Ok None, w)
    | Some d =>
      let k := env_step w in
      if db_fault env k then (Raise StorageError, set_env_step (S k) w)
      else
        match db_executions w !! Data.node_execution_id d with
        | None => (Raise AttributeError, set_env_step (S k) w)
        | Some r =>
          if negb (serialisable (QueueIterationCompletedEvent.outputs e))
          then (Raise TypeError, set_env_step (S k) w)
          else
          let now := perf_now w + Z.of_N (perf_tick env (S k)) in
          let w1 := set_perf_now now w in
          if db_fault env (S (S k))
          then (Raise StorageError, set_env_step (S (S (S k))) w1)
          else (Ok None,
                set_iteration_state
                  (Some (WorkflowIterationState.mk
                     (delete (QueueIterationCompletedEvent.node_id e) m)))
                  (set_db_executions
                     (<[WorkflowNodeExecution.id r :=
                          completed_record e d now r]> (db_executions w))
                     (set_env_step (S (S (S k))) w1)))
        end
    end
  end.
Proof.
  unfold _handle_iteration_completed, json_dumps.
  rewrite serialisable_completed_outputs.
  run_handler; reflexivity.
Qed.

Lemma started_unfold (e : QueueIterationStartEvent.t) (w : World) :
  _handle_iteration_started env e w =
  let w0 := snd (_init_iteration_state w) in
  let k := env_step w in
  if db_fault env k then (Raise StorageError, set_env_step (S k) w0)
  else
    match resolved_run w with
    | None => (Raise AttributeError, set_env_step (S k) w0)
    | Some run =>
      if db_fault env (S k)
      then (Raise StorageError, set_env_step (S (S k)) w0)
      else
        let new_id := new_uuid env (S (S k)) in
        match db_executions w !! new_id with
        | Some _ => (Raise IntegrityError, set_env_step (S (S (S k))) w0)
        | None =>
          let r := started_record run e new_id in
          let w1 :=
            set_db_executions (<[new_id := r]> (db_executions w)) w0 in
          if db_fault env (S (S (S k)))
          then (Raise StorageError, set_env_step (S (S (S (S k)))) w1)
          else
            let t1 := perf_now w + Z.of_N (perf_tick env (4 + k)) in
            let t2 := t1 + Z.of_N (perf_tick env (5 + k)) in
            let info := NodeExecutionInfo.mk new_id ITERATION t1 in
            (Ok r,
             mkWorld
               (Some (WorkflowIterationState.mk
                  (<[QueueIterationStartEvent.node_id e :=
                       started_entry e new_id t2]> (table w))))
               (TaskState.mk
                  (TaskState.workflow_run_id (_task_state w))
                  (<[QueueIterationStartEvent.node_id e := info]>
                     (TaskState.ran_node_execution_infos (_task_state w)))
                  (Some info))
               (db_runs w)
               (<[new_id := r]> (db_executions w))
               t2
               (6 + k))
        end
    end.
Proof.
  unfold resolved_run, table. run_handler; try reflexivity.
  all: match goal with H : <[_ := _]> _ !! _ = _ |- _ =>
         rewrite lookup_insert_eq in H; simplify_eq end.
  all: match goal with H : TaskState.workflow_run_id _ = _ |- _ =>
         cbn; rewrite ?H end.
  all: reflexivity.
Qed.

Lemma response_unfold (task_id : str) (ev : Event) (w : World) :
  _handle_iteration_to_stream_response env task_id ev w =
  let run_id := TaskState.workflow_run_id (_task_state w) in
  let created_at := wall_clock env (env_step w) in
  (Ok match ev with
      | Start e =>
          IterationNodeStartStreamResponse task_id run_id
            (StartData.mk (QueueIterationStartEvent.node_id e)
               (QueueIterationStartEvent.node_id e) created_at [])
      | Next e =>
          IterationNodeNextStreamResponse task_id run_id
            (NextData.mk (QueueIterationNextEvent.node_id e)
               (QueueIterationNextEvent.node_id e)
               (QueueIterationNextEvent.index e)
               (QueueIterationNextEvent.output e) created_at [])
      | Completed e =>
          IterationNodeCompletedStreamResponse task_id run_id
            (CompletedData.mk (QueueIterationCompletedEvent.node_id e)
               (QueueIterationCompletedEvent.node_id e)
               (QueueIterationCompletedEvent.outputs e) created_at [])
      end,
   set_env_step (S (env_step w)) w).
Proof. destruct ev; reflexivity. Qed.

End Paths.

Ltac case_path :=
  repeat (match goal with
          | |- context [if db_fault ?e ?k then _ else _] =>
              let E := fresh "Efault" in destruct (db_fault e k) eqn:E
          | |- context [match db_executions ?w !! ?k with _ => _ end] =>
              let E := fresh "Erow" in destruct (db_executions w !! k) eqn:E
          | |- context [match resolved_run ?w with _ => _ end] =>
              let E := fresh "Erun" in destruct (resolved_run w) eqn:E
          | |- context [if negb (serialisable ?v) then _ else _] =>
              let E := fresh "Eser" in destruct (serialisable v) eqn:E
          end; cbn).

Ltac case_table w :=
  unfold table;
  let st := fresh "st" in
  let Est := fresh "Est" in
  destruct (_iteration_state w) as [st|] eqn:Est; cbn;
  [ match goal with
    | |- context [WorkflowIterationState.current_iterations st !! ?X] =>
        let d := fresh "d" in
        let El := fresh "El" in
        destruct (WorkflowIterationState.current_iterations st !! X)
          as [d|] eqn:El; cbn
    end
  | ].

(** ** What each handler does to the Iteration State Table *)

Section TableEffects.

Variable env : Oracle.

Lemma next_table (e : QueueIterationNextEvent.t) (w : World) :
  table (snd (_handle_iteration_next env e w)) =
  match table w !! QueueIterationNextEvent.node_id e with
  | Some d => <[QueueIterationNextEvent.node_id e := next_entry e d]> (table w)
  | None => table w
  end.
Proof.
  rewrite next_unfold. unfold table.
  destruct (_iteration_state w) as [st|] eqn:Est; cbn.
  - destruct (_ !! _) eqn:El; cbn; [|by rewrite Est].
    case_path; reflexivity.
  - by rewrite Est.
Qed.

Lemma completed_table (e : QueueIterationCompletedEvent.t) (w : World) :
  table (snd (_handle_iteration_completed env e w)) =
  if succeeded (fst (_handle_iteration_completed env e w))
  then delete (QueueIterationCompletedEvent.node_id e) (table w)
  else table w.
Proof.
  rewrite completed_unfold. unfold table.
  destruct (_iteration_state w) as [st|] eqn:Est; cbn.
  - destruct (_ !! _) eqn:El; cbn.
    + case_path; rewrite ?Est; reflexivity.
    + rewrite Est. by rewrite delete_id.
  - by rewrite Est.
Qed.

Lemma started_table (e : QueueIterationStartEvent.t) (w : World) :
  table (snd (_handle_iteration_started env e w)) =
  if succeeded (fst (_handle_iteration_started env e w))
  then <[QueueIterationStartEvent.node_id e :=
           started_entry e (new_uuid env (2 + env_step w))
             (perf_now w + Z.of_N (perf_tick env (4 + env_step w))
                + Z.of_N (perf_tick env (5 + env_step w)))]> (table w)
  else table w.
Proof.
  rewrite started_unfold. cbn zeta.
  case_path; try apply table_init; reflexivity.
Qed.

Lemma operation_fst_started (e : QueueIterationStartEvent.t) (w : World) :
  succeeded (fst (_handle_iteration_operation env (Start e) w)) =
  succeeded (fst (_handle_iteration_started env e w))
  /\ snd (_handle_iteration_operation env (Start e) w) =
     snd (_handle_iteration_started env e w).
Proof.
  unfold _handle_iteration_operation, bind, ret.
  destruct (_handle_iteration_started env e w) as [[r|x] w']; auto.
Qed.

(** Whether [X] has an entry after one event, from whether it had one. *)
Lemma operation_entry (X : str) (ev : Event) (w : World) :
  let r := fst (_handle_iteration_operation env ev w) in
  let w' := snd (_handle_iteration_operation env ev w) in
  is_Some (table w' !! X) <->
    (succeeded r = true /\ is_start_for X ev = true)
    \/ (is_Some (table w !! X)
        /\ ~ (succeeded r = true /\ is_completed_for X ev = true)).
Proof.
  destruct ev as [e|e|e]; cbn zeta.
  - destruct (operation_fst_started e w) as [-> ->].
    rewrite started_table. cbn [is_start_for is_completed_for].
    destruct (succeeded _).
    + case_bool_decide as HX.
      * subst X. rewrite lookup_insert_eq. split; [auto|]. by eexists.
      * rewrite lookup_insert_ne by done. intuition congruence.
    + intuition congruence.
  - cbn [_handle_iteration_operation is_start_for is_completed_for].
    rewrite next_table.
    destruct (table w !! QueueIterationNextEvent.node_id e) as [d|] eqn:El.
    + destruct (decide (QueueIterationNextEvent.node_id e = X)) as [<-|HX].
      * rewrite lookup_insert_eq, El. intuition (eauto; congruence).
      * rewrite lookup_insert_ne by done. intuition congruence.
    + intuition congruence.
  - cbn [_handle_iteration_operation is_start_for is_completed_for].
    rewrite completed_table.
    destruct (succeeded _).
    + case_bool_decide as HX.
      * subst X. rewrite lookup_delete_eq.
        split; [intros [? ?]; discriminate | intuition congruence].
      * rewrite lookup_delete_ne by done. intuition congruence.
    + intuition congruence.
Qed.

End TableEffects.

(** ** Sequences of events and the entry of a loop *)

Section Traces.

Variable env : Oracle.

Lemma not_completed_nil (X : str) : not_completed X [].
Proof. intros ev H. by apply elem_of_nil in H. Qed.

Lemma not_completed_cons (X : str) (ev : Event) (ok : bool)
    (trace : list (Event * bool)) :
  not_completed X ((ev, ok) :: trace) <->
    ~ (ok = true /\ is_completed_for X ev = true) /\ not_completed X trace.
Proof.
  unfold not_completed. split.
  - intros H. split.
    + intros [-> Hc]. specialize (H ev (list_elem_of_here _ _)). congruence.
    + intros ev' Hin. apply H. by apply list_elem_of_further.
  - intros [Hh Ht] ev' Hin. apply elem_of_cons in Hin as [Heq|Hin].
    + simplify_eq. destruct (is_completed_for X ev); [|done].
      exfalso. by apply Hh.
    + by apply Ht.
Qed.

Lemma started_not_completed_nil (X : str) : ~ started_not_completed X [].
Proof. intros (before & ev & after & H & _). by destruct before. Qed.

Lemma started_not_completed_cons (X : str) (ev : Event) (ok : bool)
    (trace : list (Event * bool)) :
  started_not_completed X ((ev, ok) :: trace) <->
    (ok = true /\ is_start_for X ev = true /\ not_completed X trace)
    \/ started_not_completed X trace.
Proof.
  unfold started_not_completed. split.
  - intros (before & ev' & after & Heq & Hs & Hn).
    destruct before as [|h before]; cbn in Heq; simplify_eq.
    + left. auto.
    + right. eauto 6.
  - intros [(-> & Hs & Hn) | (before & ev' & after & -> & Hs & Hn)].
    + exists [], ev, trace. auto.
    + exists ((ev, ok) :: before), ev', after. auto.
Qed.

Lemma process_cons (ev : Event) (evs : list Event) (w : World) :
  process env (ev :: evs) w =
  let r := fst (_handle_iteration_operation env ev w) in
  let w' := snd (_handle_iteration_operation env ev w) in
  ((ev, succeeded r) :: fst (process env evs w'), snd (process env evs w')).
Proof.
  cbn. destruct (_handle_iteration_operation env ev w) as [r w'].
  cbn. by destruct (process env evs w').
Qed.

Lemma process_entry (X : str) (evs : list Event) (w : World) :
  is_Some (table (snd (process env evs w)) !! X) <->
    started_not_completed X (fst (process env evs w))
    \/ (is_Some (table w !! X) /\ not_completed X (fst (process env evs w))).
Proof.
  revert w. induction evs as [|ev evs IH]; intros w.
  - cbn. pose proof (started_not_completed_nil X).
    pose proof (not_completed_nil X). tauto.
  - rewrite process_cons. cbn zeta. cbn [fst snd].
    rewrite IH, started_not_completed_cons, not_completed_cons.
    pose proof (operation_entry env X ev w) as Hstep. cbn zeta in Hstep.
    rewrite Hstep. tauto.
Qed.

Lemma table_fresh (w : World) : _iteration_state w = None -> table w = ∅.
Proof. unfold table. by intros ->. Qed.

Lemma table_response (task_id : str) (ev : Event) (w : World) :
  table (snd (_handle_iteration_to_stream_response env task_id ev w)) =
  table w.
Proof. by rewrite response_unfold. Qed.

(** C1.  From a controller that has handled nothing, after any sequence of
    lifecycle events the table holds an entry for [X] exactly when a start
    event for [X] was handled to the end and no completed event for [X]
    was handled to the end after it.  An entry disappears in the handling
    of an event exactly when that event is a completed event for it whose
    handler returned; the translator and the initialiser leave the table
    as it is. *)
Theorem entry_iff_started_not_completed (w0 : World) (evs : list Event)
    (X : str) :
  _iteration_state w0 = None ->
  (is_Some (table (snd (process env evs w0)) !! X) <->
     started_not_completed X (fst (process env evs w0)))
  /\ (forall (w : World) (ev : Event),
        let r := fst (_handle_iteration_operation env ev w) in
        let w' := snd (_handle_iteration_operation env ev w) in
        is_Some (table w !! X) ->
        (table w' !! X = None <->
           succeeded r = true /\ is_completed_for X ev = true))
  /\ (forall (w : World) (task_id : str) (ev : Event),
        table (snd (_handle_iteration_to_stream_response env task_id ev w))
          = table w
        /\ table (snd (_init_iteration_state w)) = table w).
Proof.
  intros Hfresh. split; [|split].
  - rewrite process_entry, (table_fresh _ Hfresh), lookup_empty.
    split; [intros [H|[[? ?] _]]; [done|discriminate] | auto].
  - intros w ev r w' Hlive.
    pose proof (operation_entry env X ev w) as Hstep. cbn zeta in Hstep.
    fold r w' in Hstep. rewrite eq_None_not_Some, Hstep.
    assert (is_start_for X ev = true -> is_completed_for X ev = true -> False)
      by (destruct ev; cbn; congruence).
    destruct (succeeded r), (is_completed_for X ev), (is_start_for X ev);
      intuition congruence.
  - intros w task_id ev. split; [apply table_response | apply table_init].
Qed.
End Traces.

(** ** The store, the clock and the invariant of reachable worlds *)

Section Invariant.

Variable env : Oracle.

Lemma keyed_insert (db : gmap str WorkflowNodeExecution.t) (k : str)
    (r : WorkflowNodeExecution.t) :
  (forall k r, db !! k = Some r -> WorkflowNodeExecution.id r = k) ->
  WorkflowNodeExecution.id r = k ->
  forall k' r', <[k := r]> db !! k' = Some r' ->
                WorkflowNodeExecution.id r' = k'.
Proof.
  intros Hk Hr k' r' Hl.
  destruct (decide (k = k')) as [<-|Hne].
  - rewrite lookup_insert_eq in Hl. by simplify_eq.
  - rewrite lookup_insert_ne in Hl by done. eauto.
Qed.

Lemma well_formed_step (w w' : World) :
  well_formed w ->
  (forall k r, db_executions w' !! k = Some r ->
               WorkflowNodeExecution.id r = k) ->
  (forall k, is_Some (db_executions w !! k) ->
             is_Some (db_executions w' !! k)) ->
  perf_now w <= perf_now w' ->
  (forall X d', table w' !! X = Some d' ->
     (exists Y d, table w !! Y = Some d
                  /\ Data.node_execution_id d' = Data.node_execution_id d
                  /\ Data.started_at d' = Data.started_at d)
     \/ (is_Some (db_executions w' !! Data.node_execution_id d')
         /\ Data.started_at d' <= perf_now w')) ->
  well_formed w'.
Proof.
  intros [Hk He] Hk' Hgrow Hperf Hent. split; [done|].
  intros X d' Hl. destruct (Hent X d' Hl) as [(Y & d & HY & -> & ->)|H]; [|done].
  destruct (He Y d HY) as [Hs Ht]. split; [auto | lia].
Qed.

Lemma next_db (e : QueueIterationNextEvent.t) (w : World) :
  db_executions (snd (_handle_iteration_next env e w)) =
  match table w !! QueueIterationNextEvent.node_id e with
  | Some d =>
      match db_executions w !! Data.node_execution_id d with
      | Some r =>
          if succeeded (fst (_handle_iteration_next env e w))
          then <[WorkflowNodeExecution.id r := next_record e d r]>
                 (db_executions w)
          else db_executions w
      | None => db_executions w
      end
  | None => db_executions w
  end.
Proof.
  rewrite next_unfold. case_table w; try reflexivity.
  case_path; reflexivity.
Qed.

Lemma next_perf (e : QueueIterationNextEvent.t) (w : World) :
  perf_now (snd (_handle_iteration_next env e w)) = perf_now w.
Proof.
  rewrite next_unfold. case_table w; try reflexivity.
  case_path; reflexivity.
Qed.

Lemma completed_db (e : QueueIterationCompletedEvent.t) (w : World) :
  let w' := snd (_handle_iteration_completed env e w) in
  db_executions w' =
  match table w !! QueueIterationCompletedEvent.node_id e with
  | Some d =>
      match db_executions w !! Data.node_execution_id d with
      | Some r =>
          if succeeded (fst (_handle_iteration_completed env e w))
          then <[WorkflowNodeExecution.id r :=
                   completed_record e d (perf_now w') r]> (db_executions w)
          else db_executions w
      | None => db_executions w
      end
  | None => db_executions w
  end.
Proof.
  cbn zeta. rewrite completed_unfold. case_table w; try reflexivity.
  case_path; reflexivity.
Qed.

Lemma completed_perf (e : QueueIterationCompletedEvent.t) (w : World) :
  perf_now w <= perf_now (snd (_handle_iteration_completed env e w)).
Proof.
  rewrite completed_unfold. case_table w; try reflexivity.
  case_path; lia.
Qed.

Lemma started_db (e : QueueIterationStartEvent.t) (w : World) :
  let w' := snd (_handle_iteration_started env e w) in
  let new_id := new_uuid env (2 + env_step w) in
  db_executions w' = db_executions w
  \/ (db_executions w !! new_id = None
      /\ exists run, resolved_run w = Some run
           /\ db_executions w' =
              <[new_id := started_record run e new_id]> (db_executions w)).
Proof.
  cbn zeta. rewrite started_unfold, init_iteration_state_unfold. cbn zeta.
  case_path; destruct (_iteration_state w); cbn; eauto.
Qed.

Lemma started_perf (e : QueueIterationStartEvent.t) (w : World) :
  perf_now w <= perf_now (snd (_handle_iteration_started env e w)).
Proof.
  rewrite started_unfold, init_iteration_state_unfold. cbn zeta.
  case_path; destruct (_iteration_state w); cbn; lia.
Qed.

Lemma insert_grows (db : gmap str WorkflowNodeExecution.t) (k : str)
    (r : WorkflowNodeExecution.t) (k' : str) :
  is_Some (db !! k') -> is_Some (<[k := r]> db !! k').
Proof. intros H. apply lookup_insert_is_Some'. by right. Qed.

Lemma next_well_formed (e : QueueIterationNextEvent.t) (w : World) :
  well_formed w -> well_formed (snd (_handle_iteration_next env e w)).
Proof.
  intros Hwf. pose proof Hwf as [Hk He].
  apply (well_formed_step w); [done|..].
  - rewrite next_db.
    destruct (table w !! _) as [d|]; [|done].
    destruct (db_executions w !! _) as [r|] eqn:Er; [|done].
    destruct (succeeded _); [|done].
    apply keyed_insert; [done|reflexivity].
  - intros k Hs. rewrite next_db.
    destruct (table w !! _) as [d|]; [|done].
    destruct (db_executions w !! Data.node_execution_id d) as [r|] eqn:Er;
      [|done].
    destruct (succeeded _); [|done].
    by apply insert_grows.
  - by rewrite next_perf.
  - intros X d'. rewrite next_table.
    destruct (table w !! _) as [d|] eqn:El; [|left; eauto].
    destruct (decide (QueueIterationNextEvent.node_id e = X)) as [<-|Hne].
    + rewrite lookup_insert_eq. intros [= <-]. left. eauto.
    + rewrite lookup_insert_ne by done. left; eauto.
Qed.

Lemma completed_well_formed (e : QueueIterationCompletedEvent.t) (w : World) :
  well_formed w -> well_formed (snd (_handle_iteration_completed env e w)).
Proof.
  intros Hwf. pose proof Hwf as [Hk He].
  apply (well_formed_step w); [done|..].
  - rewrite completed_db.
    destruct (table w !! _) as [d|]; [|done].
    destruct (db_executions w !! _) as [r|] eqn:Er; [|done].
    destruct (succeeded _); [|done].
    apply keyed_insert; [done|reflexivity].
  - intros k Hs. rewrite completed_db.
    destruct (table w !! _) as [d|]; [|done].
    destruct (db_executions w !! Data.node_execution_id d) as [r|] eqn:Er;
      [|done].
    destruct (succeeded _); [|done].
    by apply insert_grows.
  - apply completed_perf.
  - intros X d'. rewrite completed_table.
    destruct (succeeded _); [|left; eauto].
    intros Hl. apply lookup_delete_Some in Hl as [_ Hl]. left; eauto.
Qed.

Lemma started_well_formed (e : QueueIterationStartEvent.t) (w : World) :
  well_formed w -> well_formed (snd (_handle_iteration_started env e w)).
Proof.
  intros Hwf. pose proof Hwf as [Hk He].
  pose proof (started_db e w) as Hdb. cbn zeta in Hdb.
  apply (well_formed_step w); [done|..].
  - destruct Hdb as [->|(Hnew & run & _ & ->)]; [done|].
    apply keyed_insert; [done|reflexivity].
  - intros k Hs.
    destruct Hdb as [->|(Hnew & run & _ & ->)]; [done|].
    by apply insert_grows.
  - apply started_perf.
  - intros X d'. rewrite started_table.
    destruct (succeeded _) eqn:Hok; [|left; eauto].
    destruct (decide (QueueIterationStartEvent.node_id e = X)) as [<-|Hne].
    + rewrite lookup_insert_eq. intros [= <-]. right.
      revert Hok. rewrite started_unfold, init_iteration_state_unfold.
      cbn zeta. case_path; try discriminate. intros _.
      split; [by rewrite lookup_insert_eq | reflexivity].
    + rewrite lookup_insert_ne by done. left; eauto.
Qed.

Lemma operation_well_formed (ev : Event) (w : World) :
  well_formed w -> well_formed (snd (_handle_iteration_operation env ev w)).
Proof.
  destruct ev as [e|e|e].
  - destruct (operation_fst_started env e w) as [_ ->].
    apply started_well_formed.
  - apply next_well_formed.
  - apply completed_well_formed.
Qed.

Lemma initial_well_formed (w : World) : initial w -> well_formed w.
Proof.
  intros [Hnone Hk]. split; [done|].
  intros X d. unfold table. rewrite Hnone, lookup_empty. discriminate.
Qed.

Lemma reachable_well_formed (w : World) : reachable env w -> well_formed w.
Proof.
  induction 1 as [w Hi|w ev _ IH|w task_id ev _ IH].
  - by apply initial_well_formed.
  - by apply operation_well_formed.
  - by rewrite response_unfold.
Qed.

Lemma process_well_formed (evs : list Event) (w : World) :
  well_formed w -> well_formed (snd (process env evs w)).
Proof.
  revert w. induction evs as [|ev evs IH]; intros w Hwf; [done|].
  rewrite process_cons. cbn. apply IH. by apply operation_well_formed.
Qed.
End Invariant.

(** ** The handlers on their paths of interest *)

Section Handlers.

Variable env : Oracle.

Lemma quiet_at (w : World) (n j : nat) :
  quiet env w n -> (j < n)%nat -> db_fault env (j + env_step w) = false.
Proof. intros H Hj. rewrite Nat.add_comm. by apply H. Qed.

Lemma table_lookup_Some (w : World) (X : str) (d : Data.t) :
  table w !! X = Some d ->
  exists st, _iteration_state w = Some st
             /\ WorkflowIterationState.current_iterations st !! X = Some d.
Proof.
  unfold table. destruct (_iteration_state w) as [st|]; [eauto|].
  rewrite lookup_empty. discriminate.
Qed.

(** C4, amended.  In a reachable world where the loop has an entry and the
    store answers the three interactions of the handler, handling a
    completed event whose outputs [O] are JSON-serialisable returns, and the
    record the entry points to then has status SUCCEEDED, outputs
    [dumps {output: O}] and as elapsed time the difference between the clock
    reading taken by the handler and the entry's [started_at], which is not
    negative; the loop has no entry any more.  Without the condition on [O]
    the handler raises [TypeError] at line 190 and finalises nothing. *)
Theorem completed_finalizes_record (w : World)
    (e : QueueIterationCompletedEvent.t) (d : Data.t) :
  reachable env w ->
  table w !! QueueIterationCompletedEvent.node_id e = Some d ->
  quiet env w 3 ->
  serialisable (QueueIterationCompletedEvent.outputs e) = true ->
  exists (w' : World) (r : WorkflowNodeExecution.t),
    _handle_iteration_completed env e w = (Ok None, w')
    /\ db_executions w' !! Data.node_execution_id d = Some r
    /\ WorkflowNodeExecution.status r = SUCCEEDED
    /\ WorkflowNodeExecution.outputs r =
         Some (dumps (VDict [(lit "output",
                              QueueIterationCompletedEvent.outputs e)]))
    /\ WorkflowNodeExecution.elapsed_time r =
         Some (perf_now w' - Data.started_at d)
    /\ 0 <= perf_now w' - Data.started_at d
    /\ table w' !! QueueIterationCompletedEvent.node_id e = None.
Proof.
  intros Hreach Hl Hq Hser.
  apply reachable_well_formed in Hreach as [Hk He].
  destruct (He _ _ Hl) as [[r Hr] Hstart].
  apply table_lookup_Some in Hl as (st & Est & El).
  pose proof (quiet_at w 3 0 Hq ltac:(lia)) as H0.
  pose proof (quiet_at w 3 2 Hq ltac:(lia)) as H2.
  cbn in H0, H2.
  rewrite completed_unfold, Est. cbn zeta. rewrite El, H0, Hr, Hser, H2.
  eexists _, _. split; [reflexivity|]. cbn.
  rewrite (Hk _ _ Hr), lookup_insert_eq, lookup_delete_eq.
  repeat split; lia.
Qed.

(** The success path of the start handler. *)
Lemma started_success (w : World) (e : QueueIterationStartEvent.t)
    (run_id : str) (run : WorkflowRun.t) :
  TaskState.workflow_run_id (_task_state w) = Some run_id ->
  db_runs w !! run_id = Some run ->
  quiet env w 4 ->
  db_executions w !! new_uuid env (2 + env_step w) = None ->
  let new_id := new_uuid env (2 + env_step w) in
  let r := started_record run e new_id in
  exists (w' : World) (started_at : Z),
    _handle_iteration_started env e w = (Ok r, w')
    /\ db_executions w' = <[new_id := r]> (db_executions w)
    /\ table w' =
       <[QueueIterationStartEvent.node_id e :=
           started_entry e new_id started_at]> (table w).
Proof.
  intros Hid Hrun Hq Hnew new_id r.
  pose proof (quiet_at w 4 0 Hq ltac:(lia)) as H0.
  pose proof (quiet_at w 4 1 Hq ltac:(lia)) as H1.
  pose proof (quiet_at w 4 3 Hq ltac:(lia)) as H3.
  cbn in H0, H1, H3, Hnew.
  rewrite started_unfold. cbn zeta. unfold resolved_run.
  rewrite Hid, Hrun, H0, H1, Hnew, H3.
  eexists _, _. split; [reflexivity|]. split; reflexivity.
Qed.

(** C5.  When the run resolves, the store answers and the key it assigns
    is unused, handling a start event with run index [r] returns the new
    record: it was not in the store before and is there now, with status
    RUNNING, metadata [dumps {started_run_index: r+1, current_index: 0,
    steps_boundary: []}] and the tenant, app and creator of the run; and
    the table maps the loop to an entry with [current_index] 0, an empty
    boundary and the identifier of that record. *)
Theorem started_creates_record_and_entry (w : World)
    (e : QueueIterationStartEvent.t) (run_id : str) (run : WorkflowRun.t) :
  TaskState.workflow_run_id (_task_state w) = Some run_id ->
  db_runs w !! run_id = Some run ->
  quiet env w 4 ->
  db_executions w !! new_uuid env (2 + env_step w) = None ->
  exists (w' : World) (r : WorkflowNodeExecution.t) (d : Data.t),
    _handle_iteration_started env e w = (Ok r, w')
    /\ db_executions w !! WorkflowNodeExecution.id r = None
    /\ db_executions w' = <[WorkflowNodeExecution.id r := r]> (db_executions w)
    /\ WorkflowNodeExecution.status r = RUNNING
    /\ WorkflowNodeExecution.execution_metadata r =
         dumps (VDict
           [(lit "started_run_index",
             VInt (QueueIterationStartEvent.node_run_index e + 1));
            (lit "current_index", VInt 0);
            (lit "steps_boundary", VList [])])
    /\ WorkflowNodeExecution.tenant_id r = WorkflowRun.tenant_id run
    /\ WorkflowNodeExecution.app_id r = WorkflowRun.app_id run
    /\ WorkflowNodeExecution.created_by_role r = WorkflowRun.created_by_role run
    /\ WorkflowNodeExecution.created_by r = WorkflowRun.created_by run
    /\ table w' !! QueueIterationStartEvent.node_id e = Some d
    /\ Data.current_index d = 0
    /\ Data.iteration_steps_boundary d = []
    /\ Data.node_execution_id d = WorkflowNodeExecution.id r.
Proof.
  intros Hid Hrun Hq Hnew.
  destruct (started_success w e run_id run Hid Hrun Hq Hnew)
    as (w' & t & Hres & Hdb & Htab).
  eexists w', _, _. split; [exact Hres|].
  rewrite Hdb, Htab, lookup_insert_eq. cbn.
  repeat split; done.
Qed.

(** C6.  A start event for a loop that already has an entry is handled
    like any other: nothing looks the loop up first.  A second record is
    created under a new key, the record of the running entry stays in the
    store as it was, and the entry is replaced by one with [current_index]
    0, an empty boundary and the new record's identifier. *)
Theorem duplicate_start_supersedes (w : World)
    (e : QueueIterationStartEvent.t) (run_id : str) (run : WorkflowRun.t)
    (d0 : Data.t) (r0 : WorkflowNodeExecution.t) :
  table w !! QueueIterationStartEvent.node_id e = Some d0 ->
  db_executions w !! Data.node_execution_id d0 = Some r0 ->
  TaskState.workflow_run_id (_task_state w) = Some run_id ->
  db_runs w !! run_id = Some run ->
  quiet env w 4 ->
  db_executions w !! new_uuid env (2 + env_step w) = None ->
  exists (w' : World) (r : WorkflowNodeExecution.t) (d : Data.t),
    _handle_iteration_started env e w = (Ok r, w')
    /\ WorkflowNodeExecution.id r <> Data.node_execution_id d0
    /\ db_executions w' !! Data.node_execution_id d0 = Some r0
    /\ db_executions w' !! WorkflowNodeExecution.id r = Some r
    /\ WorkflowNodeExecution.status r = RUNNING
    /\ table w' !! QueueIterationStartEvent.node_id e = Some d
    /\ Data.current_index d = 0
    /\ Data.iteration_steps_boundary d = []
    /\ Data.node_execution_id d = WorkflowNodeExecution.id r.
Proof.
  intros Hlive Hold Hid Hrun Hq Hnew.
  destruct (started_success w e run_id run Hid Hrun Hq Hnew)
    as (w' & t & Hres & Hdb & Htab).
  assert (new_uuid env (2 + env_step w) <> Data.node_execution_id d0) as Hne
    by congruence.
  eexists w', _, _. split; [exact Hres|].
  rewrite Hdb, Htab, !lookup_insert_eq, lookup_insert_ne by done. cbn.
  repeat split; done.
Qed.

(** C7.  Whenever the handling of an event raises, be it for a failure of
    the store at the creation, a fetch or an update, every loop has an
    entry afterwards exactly when it had one before.  After a failed start
    or completed event the table is the one from before: nothing was
    inserted, nothing removed.  After a failed next event the entry is
    still there, with the index and boundary the handler had already
    written. *)
Theorem failure_leaves_entries (ev : Event) (w : World) (x : Exn) :
  fst (_handle_iteration_operation env ev w) = Raise x ->
  let w' := snd (_handle_iteration_operation env ev w) in
  (forall X, is_Some (table w' !! X) <-> is_Some (table w !! X))
  /\ match ev with
     | Start e => table w' = table w
     | Completed e => table w' = table w
     | Next e =>
         table w' =
         match table w !! QueueIterationNextEvent.node_id e with
         | Some d =>
             <[QueueIterationNextEvent.node_id e := next_entry e d]> (table w)
         | None => table w
         end
     end.
Proof.
  intros Hraise w'. split.
  - intros X. pose proof (operation_entry env X ev w) as Hstep.
    cbn zeta in Hstep. fold w' in Hstep. rewrite Hstep, Hraise. cbn.
    intuition congruence.
  - subst w'. destruct ev as [e|e|e]; [| apply next_table |].
    + destruct (operation_fst_started env e w) as [Hok ->].
      rewrite Hraise in Hok. rewrite started_table, <- Hok. reflexivity.
    + cbn [_handle_iteration_operation] in *.
      rewrite completed_table, Hraise. reflexivity.
Qed.

(** Once the table is initialised, a next or completed event for a loop
    without entry changes nothing and returns. *)
Lemma unknown_id_is_noop (w : World) (st : WorkflowIterationState.t)
    (X : str) :
  _iteration_state w = Some st ->
  WorkflowIterationState.current_iterations st !! X = None ->
  (forall e, QueueIterationNextEvent.node_id e = X ->
             _handle_iteration_next env e w = (Ok None, w))
  /\ (forall e, QueueIterationCompletedEvent.node_id e = X ->
                _handle_iteration_completed env e w = (Ok None, w)).
Proof.
  intros Hst Hl. split; intros e <-.
  - by rewrite next_unfold, Hst; cbn zeta; rewrite Hl.
  - by rewrite completed_unfold, Hst; cbn zeta; rewrite Hl.
Qed.

(** Before the first start event [self._iteration_state] is [None], and
    both handlers raise on reading its [current_iterations]. *)
Lemma uninitialised_raises (w : World) :
  _iteration_state w = None ->
  (forall e, _handle_iteration_next env e w = (Raise AttributeError, w))
  /\ (forall e, _handle_iteration_completed env e w
                = (Raise AttributeError, w)).
Proof.
  intros Hst. split; intros e.
  - by rewrite next_unfold, Hst.
  - by rewrite completed_unfold, Hst.
Qed.

Lemma process_keeps_entry (X : str) (evs : list Event) (w : World)
    (d : Data.t) :
  table w !! X = Some d ->
  only_next_for X evs ->
  exists d',
    table (snd (process env evs w)) !! X = Some d'
    /\ Data.iteration_steps_boundary d' =
       Data.iteration_steps_boundary d ++ next_run_indices X evs
    /\ Data.node_execution_id d' = Data.node_execution_id d.
Proof.
  revert w d. induction evs as [|ev evs IH]; intros w d Hl Hon.
  - exists d. cbn. by rewrite app_nil_r.
  - apply Forall_cons in Hon as [[Hs Hc] Hon].
    rewrite process_cons. cbn zeta. cbn [fst snd].
    destruct ev as [e|e|e]; cbn in Hs, Hc.
    + apply bool_decide_eq_false in Hs.
      destruct (operation_fst_started env e w) as [_ ->].
      destruct (IH (snd (_handle_iteration_started env e w)) d)
        as (d' & H1 & H2 & H3); [|done|by exists d'].
      rewrite started_table. destruct (succeeded _); [|done].
      by rewrite lookup_insert_ne.
    + cbn [_handle_iteration_operation next_run_indices flat_map].
      case_bool_decide as HX.
      * destruct (IH (snd (_handle_iteration_next env e w)) (next_entry e d))
          as (d' & H1 & H2 & H3); [|done|].
        { rewrite next_table, HX, Hl. by rewrite lookup_insert_eq. }
        exists d'. split; [done|]. split; [|done].
        rewrite H2. cbn. by rewrite <- app_assoc.
      * destruct (IH (snd (_handle_iteration_next env e w)) d)
          as (d' & H1 & H2 & H3); [|done|by exists d'].
        rewrite next_table.
        destruct (table w !! QueueIterationNextEvent.node_id e); [|done].
        by rewrite lookup_insert_ne.
    + apply bool_decide_eq_false in Hc.
      cbn [_handle_iteration_operation].
      destruct (IH (snd (_handle_iteration_completed env e w)) d)
        as (d' & H1 & H2 & H3); [|done|by exists d'].
      rewrite completed_table. destruct (succeeded _); [|done].
      by rewrite lookup_delete_ne.
Qed.

Lemma next_run_indices_app (X : str) (evs1 evs2 : list Event) :
  next_run_indices X (evs1 ++ evs2) =
  next_run_indices X evs1 ++ next_run_indices X evs2.
Proof. unfold next_run_indices. apply flat_map_app. Qed.

Lemma next_run_indices_length (X : str) (evs : list Event) :
  length (next_run_indices X evs) = length (List.filter (is_next_for X) evs).
Proof.
  unfold next_run_indices.
  induction evs as [|ev evs IH]; [done|].
  destruct ev as [e|e|e]; cbn; try done.
  case_bool_decide; cbn; by rewrite IH.
Qed.

(** C3.  Start a loop [X] in a reachable world, then handle any events
    among which only next events are about [X], then a next event [n] for
    [X] with pass index [i] and run index [r] while the store answers.  The
    handler returns; the boundary of the entry is the sequence of the run
    indices of all next events for [X] since the start, in order, so its
    length is their number; and the metadata of the record is
    [dumps {started_run_index: r+1, current_index: i, steps_boundary:
    that boundary}], written as a whole. *)
Theorem next_accumulates_boundary (w0 : World)
    (e : QueueIterationStartEvent.t) (evs : list Event)
    (n : QueueIterationNextEvent.t) :
  let X := QueueIterationStartEvent.node_id e in
  let w1 :=
    snd (process env evs (snd (_handle_iteration_started env e w0))) in
  reachable env w0 ->
  succeeded (fst (_handle_iteration_started env e w0)) = true ->
  only_next_for X evs ->
  QueueIterationNextEvent.node_id n = X ->
  quiet env w1 2 ->
  exists (w2 : World) (d : Data.t) (r : WorkflowNodeExecution.t),
    _handle_iteration_next env n w1 = (Ok None, w2)
    /\ table w2 !! X = Some d
    /\ Data.iteration_steps_boundary d =
         next_run_indices X (evs ++ [Next n])
    /\ length (Data.iteration_steps_boundary d) =
         length (List.filter (is_next_for X) (evs ++ [Next n]))
    /\ Data.current_index d = QueueIterationNextEvent.index n
    /\ db_executions w2 !! Data.node_execution_id d = Some r
    /\ WorkflowNodeExecution.execution_metadata r =
         dumps (VDict
           [(lit "started_run_index",
             VInt (QueueIterationNextEvent.node_run_index n + 1));
            (lit "current_index", VInt (QueueIterationNextEvent.index n));
            (lit "steps_boundary",
             VList (map VInt (Data.iteration_steps_boundary d)))]).
Proof.
  intros X w1 Hreach Hok Hon Hn Hq.
  assert (well_formed w1) as [Hk He].
  { apply (process_well_formed env), (started_well_formed env).
    by apply (reachable_well_formed env). }
  destruct (process_keeps_entry X evs
              (snd (_handle_iteration_started env e w0))
              (started_entry e (new_uuid env (2 + env_step w0))
                 (perf_now w0 + Z.of_N (perf_tick env (4 + env_step w0))
                  + Z.of_N (perf_tick env (5 + env_step w0)))))
    as (d1 & Hl1 & Hb1 & _); [|done|].
  { rewrite started_table, Hok. by rewrite lookup_insert_eq. }
  fold w1 in Hl1. cbn in Hb1.
  destruct (He _ _ Hl1) as [[r1 Hr1] _].
  pose proof (Hk _ _ Hr1) as Hid.
  apply table_lookup_Some in Hl1 as (st & Est & El).
  pose proof (quiet_at w1 2 0 Hq ltac:(lia)) as H0.
  pose proof (quiet_at w1 2 1 Hq ltac:(lia)) as H1.
  cbn in H0, H1.
  rewrite next_unfold, Est. cbn zeta. rewrite Hn, El, H0, Hr1, H1.
  eexists _, (next_entry n d1), (next_record n d1 r1).
  split; [reflexivity|].
  cbn. rewrite Hid, !lookup_insert_eq.
  rewrite <- next_run_indices_length, next_run_indices_app.
  assert (next_run_indices X [Next n]
          = [QueueIterationNextEvent.node_run_index n]) as ->.
  { cbn. by rewrite bool_decide_eq_true_2. }
  rewrite Hb1. repeat split; done.
Qed.


Lemma init_iteration_state_twice (w : World) :
  _init_iteration_state (snd (_init_iteration_state w)) =
  (Ok tt, snd (_init_iteration_state w)).
Proof.
  rewrite !init_iteration_state_unfold.
  destruct (_iteration_state w) as [st|] eqn:Est; cbn; [by rewrite Est|done].
Qed.

(** C9.  Initialising is idempotent: on a controller whose table is
    initialised and holds at least one entry, [_init_iteration_state]
    returns and leaves every part of the world, the entries included, as it
    is; so initialising twice is initialising once, which is doing
    nothing. *)
Theorem init_iteration_state_idempotent (w : World)
    (st : WorkflowIterationState.t) (X : str) :
  _iteration_state w = Some st ->
  is_Some (WorkflowIterationState.current_iterations st !! X) ->
  _init_iteration_state w = (Ok tt, w)
  /\ _init_iteration_state (snd (_init_iteration_state w)) =
     _init_iteration_state w.
Proof.
  intros Hst _.
  assert (_init_iteration_state w = (Ok tt, w)) as Hinit
    by (by rewrite init_iteration_state_unfold, Hst).
  by rewrite !Hinit.
Qed.

(** C8.  For every task identifier and each of the three kinds of event the
    translator returns, without raising, the notification of that kind:
    it carries the task identifier, the run identifier of the task state,
    the loop identifier, the wall-clock reading as creation time, and for a
    next event the pass index and output, for a completed event the
    outputs.  The world it leaves differs from the one it found in the
    count of interactions with the environment only, and its answer is the
    same whatever the Iteration State Table is. *)
Theorem stream_response_is_pure (task_id : str) (ev : Event) (w : World) :
  exists resp : StreamResponse,
    _handle_iteration_to_stream_response env task_id ev w =
      (Ok resp, set_env_step (S (env_step w)) w)
    /\ match ev, resp with
       | Start e, IterationNodeStartStreamResponse t run_id data =>
           t = task_id
           /\ run_id = TaskState.workflow_run_id (_task_state w)
           /\ StartData.id data = QueueIterationStartEvent.node_id e
           /\ StartData.node_id data = QueueIterationStartEvent.node_id e
           /\ StartData.created_at data = wall_clock env (env_step w)
       | Next e, IterationNodeNextStreamResponse t run_id data =>
           t = task_id
           /\ run_id = TaskState.workflow_run_id (_task_state w)
           /\ NextData.id data = QueueIterationNextEvent.node_id e
           /\ NextData.node_id data = QueueIterationNextEvent.node_id e
           /\ NextData.index data = QueueIterationNextEvent.index e
           /\ NextData.output data = QueueIterationNextEvent.output e
           /\ NextData.created_at data = wall_clock env (env_step w)
       | Completed e, IterationNodeCompletedStreamResponse t run_id data =>
           t = task_id
           /\ run_id = TaskState.workflow_run_id (_task_state w)
           /\ CompletedData.id data = QueueIterationCompletedEvent.node_id e
           /\ CompletedData.node_id data =
                QueueIterationCompletedEvent.node_id e
           /\ CompletedData.outputs data =
                QueueIterationCompletedEvent.outputs e
           /\ CompletedData.created_at data = wall_clock env (env_step w)
       | _, _ => False
       end
    /\ (forall st : option WorkflowIterationState.t,
          fst (_handle_iteration_to_stream_response env task_id ev
                 (set_iteration_state st w)) = Ok resp).
Proof.
  rewrite response_unfold. cbn zeta. eexists. split; [reflexivity|].
  split; [destruct ev; repeat split | intros st; by rewrite response_unfold].
Qed.
End Handlers.


(** C2.  On a controller that has handled no start event yet, a next and a
    completed event for the unknown loop [loop99] both raise
    [AttributeError] instead of returning: [self._iteration_state] is still
    [None] there, and only the start handler initialises it. *)
Example unknown_id_before_first_start_raises :
  _handle_iteration_next calm next_loop99 fresh
    = (Raise AttributeError, fresh)
  /\ _handle_iteration_completed calm completed_loop99
       fresh
     = (Raise AttributeError, fresh).
Proof. split; reflexivity. Qed.

(** ** The properties on the concrete runs *)

Lemma initial_fresh : initial fresh.
Proof.
  split; [reflexivity|]. intros k r H. cbn in H.
  rewrite lookup_empty in H. discriminate.
Defined.

Lemma quiet_calm (w : World) (n : nat) : quiet calm w n.
Proof. intros j _. reflexivity. Defined.

Lemma entry_iff_started_not_completed_witness :
  is_Some (table (snd (process calm
                         [Start start_loop1;
                          Next next_loop1_0] fresh))
             !! lit "loop1")
  <-> started_not_completed (lit "loop1")
        (fst (process calm
                [Start start_loop1; Next next_loop1_0]
                fresh)).
Proof.
  exact (proj1 (entry_iff_started_not_completed calm fresh
                  [Start start_loop1; Next next_loop1_0]
                  (lit "loop1") eq_refl)).
Defined.

Lemma init_iteration_state_idempotent_witness :
  _init_iteration_state started = (Ok tt, started)
  /\ _init_iteration_state (snd (_init_iteration_state started)) =
     _init_iteration_state started.
Proof.
  apply (init_iteration_state_idempotent started
           (WorkflowIterationState.mk (table started))
           (lit "loop1")).
  - vm_compute. reflexivity.
  - vm_compute. eexists. reflexivity.
Defined.

Lemma reachable_started : reachable calm started.
Proof. apply reachable_operation, reachable_initial, initial_fresh. Defined.

Lemma next_accumulates_boundary_witness :
  exists (w2 : World) (d : Data.t) (r : WorkflowNodeExecution.t),
    _handle_iteration_next calm next_loop1_1
      (snd (process calm [Next next_loop1_0]
              (snd (_handle_iteration_started calm
                      start_loop1 fresh))))
      = (Ok None, w2)
    /\ table w2 !! lit "loop1" = Some d
    /\ Data.iteration_steps_boundary d = [3; 5]
    /\ length (Data.iteration_steps_boundary d) = 2%nat
    /\ Data.current_index d = 1
    /\ db_executions w2 !! Data.node_execution_id d = Some r
    /\ WorkflowNodeExecution.execution_metadata r =
         dumps (VDict
           [(lit "started_run_index", VInt 6);
            (lit "current_index", VInt 1);
            (lit "steps_boundary",
             VList (map VInt (Data.iteration_steps_boundary d)))]).
Proof.
  apply (next_accumulates_boundary calm fresh
           start_loop1 [Next next_loop1_0]
           next_loop1_1).
  - apply reachable_initial, initial_fresh.
  - vm_compute. reflexivity.
  - repeat constructor.
  - reflexivity.
  - apply quiet_calm.
Defined.

Lemma completed_finalizes_record_witness :
  exists (w' : World) (r : WorkflowNodeExecution.t),
    _handle_iteration_completed calm completed_loop1
      started = (Ok None, w')
    /\ db_executions w' !! lit "exec-2" = Some r
    /\ WorkflowNodeExecution.status r = SUCCEEDED
    /\ WorkflowNodeExecution.outputs r =
         Some (dumps (VDict [(lit "output",
                              VDict [(lit "result", VStr (lit "ok"))])]))
    /\ WorkflowNodeExecution.elapsed_time r = Some (perf_now w' - 104)
    /\ 0 <= perf_now w' - 104
    /\ table w' !! lit "loop1" = None.
Proof.
  apply (completed_finalizes_record calm started
           completed_loop1
           (started_entry start_loop1 (lit "exec-2") 104)).
  - apply reachable_started.
  - vm_compute. reflexivity.
  - apply quiet_calm.
  - reflexivity.
Defined.

(** C4, counterexample.  [loop1] is live in the reachable world [started]
    and the store never fails, but the outputs of the completed event hold
    an object that [json.dumps] cannot encode: the handler raises
    [TypeError] at line 190 instead of returning, the record [exec-2] the
    entry points to is as it was (status RUNNING, neither outputs nor
    elapsed time), and [loop1] keeps its entry. *)
Lemma completed_unserialisable_outputs_counterexample :
  reachable calm started
  /\ table started !! QueueIterationCompletedEvent.node_id completed_loop1_object
     = Some (started_entry start_loop1 (lit "exec-2") 104)
  /\ quiet calm started 3
  /\ fst (_handle_iteration_completed calm completed_loop1_object started)
     = Raise TypeError
  /\ db_executions
       (snd (_handle_iteration_completed calm completed_loop1_object started))
       !! lit "exec-2"
     = Some (started_record run1 start_loop1 (lit "exec-2"))
  /\ WorkflowNodeExecution.status
       (started_record run1 start_loop1 (lit "exec-2")) = RUNNING
  /\ WorkflowNodeExecution.outputs
       (started_record run1 start_loop1 (lit "exec-2")) = None
  /\ WorkflowNodeExecution.elapsed_time
       (started_record run1 start_loop1 (lit "exec-2")) = None
  /\ table
       (snd (_handle_iteration_completed calm completed_loop1_object started))
       !! lit "loop1"
     = Some (started_entry start_loop1 (lit "exec-2") 104).
Proof.
  split; [apply reachable_started|].
  split; [vm_compute; reflexivity|].
  split; [apply quiet_calm|].
  repeat split; vm_compute; reflexivity.
Defined.

Lemma started_creates_record_and_entry_witness :
  exists (w' : World) (r : WorkflowNodeExecution.t) (d : Data.t),
    _handle_iteration_started calm start_loop1
      fresh = (Ok r, w')
    /\ db_executions fresh !! WorkflowNodeExecution.id r = None
    /\ db_executions w' =
       <[WorkflowNodeExecution.id r := r]> (db_executions fresh)
    /\ WorkflowNodeExecution.status r = RUNNING
    /\ WorkflowNodeExecution.execution_metadata r =
         dumps (VDict
           [(lit "started_run_index", VInt 2);
            (lit "current_index", VInt 0);
            (lit "steps_boundary", VList [])])
    /\ WorkflowNodeExecution.tenant_id r = lit "tenant"
    /\ WorkflowNodeExecution.app_id r = lit "app"
    /\ WorkflowNodeExecution.created_by_role r = lit "account"
    /\ WorkflowNodeExecution.created_by r = lit "alice"
    /\ table w' !! lit "loop1" = Some d
    /\ Data.current_index d = 0
    /\ Data.iteration_steps_boundary d = []
    /\ Data.node_execution_id d = WorkflowNodeExecution.id r.
Proof.
  apply (started_creates_record_and_entry calm fresh
           start_loop1 (lit "run1") run1).
  - reflexivity.
  - vm_compute. reflexivity.
  - apply quiet_calm.
  - vm_compute. reflexivity.
Defined.

Lemma duplicate_start_supersedes_witness :
  exists (w' : World) (r : WorkflowNodeExecution.t) (d : Data.t),
    _handle_iteration_started calm start_loop1
      started = (Ok r, w')
    /\ WorkflowNodeExecution.id r <> lit "exec-2"
    /\ db_executions w' !! lit "exec-2" =
       Some (started_record run1 start_loop1 (lit "exec-2"))
    /\ db_executions w' !! WorkflowNodeExecution.id r = Some r
    /\ WorkflowNodeExecution.status r = RUNNING
    /\ table w' !! lit "loop1" = Some d
    /\ Data.current_index d = 0
    /\ Data.iteration_steps_boundary d = []
    /\ Data.node_execution_id d = WorkflowNodeExecution.id r.
Proof.
  apply (duplicate_start_supersedes calm started
           start_loop1 (lit "run1") run1
           (started_entry start_loop1 (lit "exec-2") 104)
           (started_record run1 start_loop1 (lit "exec-2"))).
  - vm_compute. reflexivity.
  - vm_compute. reflexivity.
  - reflexivity.
  - vm_compute. reflexivity.
  - apply quiet_calm.
  - vm_compute. reflexivity.
Defined.

Lemma failure_leaves_entries_witness :
  fst (_handle_iteration_operation create_fails
         (Start start_loop1) fresh) = Raise StorageError
  /\ table (snd (_handle_iteration_operation create_fails
                   (Start start_loop1) fresh))
     = table fresh.
Proof.
  split; [vm_compute; reflexivity|].
  apply (failure_leaves_entries create_fails
           (Start start_loop1) fresh StorageError).
  vm_compute. reflexivity.
Defined.


End IterationProps.

(* ===================================================================== *)
(** * Properties of the icon resolver *)
(* ===================================================================== *)

Module ToolTransformProps.
Import Py ToolTransform Scenario.

Section Resolver.

Variable CONSOLE_API_URL : str.
Variables BUILTIN MODEL API WORKFLOW : str.
Variable json_loads : str -> Result value.

(** C10.  The resolver returns on every three strings, whatever
    [json.loads] does with the icon.  For the type BUILTIN, and likewise
    MODEL, the result is the console URL, the concatenation of the
    configured prefix, the path of the tool providers, the type's segment,
    the provider name and [/icon]; for API and WORKFLOW it is the icon
    parsed as JSON, and the default icon when the parser raises; for any
    other type it is the empty string.  The default icon is
    [{background: #252525, content: c}] where [c] is the surrogate pair of
    U+1F601, the grinning face, and it serialises as the object with that
    character does. *)
Theorem get_tool_provider_icon_url_total
    (provider_type provider_name icon : str) :
  NoDup [BUILTIN; MODEL; API; WORKFLOW] ->
  exists v : value,
    get_tool_provider_icon_url CONSOLE_API_URL BUILTIN MODEL API WORKFLOW
      json_loads provider_type provider_name icon = Ok v
    /\ (provider_type = BUILTIN ->
        v = VStr (CONSOLE_API_URL
                  ++ lit "/console/api/workspaces/current/tool-provider/"
                  ++ lit "builtin/" ++ provider_name ++ lit "/icon"))
    /\ (provider_type = MODEL ->
        v = VStr (CONSOLE_API_URL
                  ++ lit "/console/api/workspaces/current/tool-provider/"
                  ++ lit "model/" ++ provider_name ++ lit "/icon"))
    /\ (provider_type = API \/ provider_type = WORKFLOW ->
        v = match json_loads icon with
            | Ok parsed => parsed
            | Raise _ => default_icon
            end)
    /\ (provider_type ∉ [BUILTIN; MODEL; API; WORKFLOW] -> v = VStr [])
    /\ default_icon =
         VDict [(lit "background", VStr (lit "#252525"));
                (lit "content", VStr [55357%N; 56833%N])]
    /\ surrogate_pair 55357 56833 = 128513%N
    /\ dumps default_icon =
       dumps (VDict [(lit "background", VStr (lit "#252525"));
                     (lit "content", VStr [128513%N])]).
Proof.
  intros Hnd.
  apply NoDup_cons in Hnd as [Hb Hnd].
  apply NoDup_cons in Hnd as [Hm Hnd].
  apply NoDup_cons in Hnd as [Ha _].
  rewrite !elem_of_cons, elem_of_nil in Hb.
  rewrite !elem_of_cons, elem_of_nil in Hm.
  rewrite !elem_of_cons, elem_of_nil in Ha.
  assert (exists v, try_except (json_loads icon) (Ok default_icon) = Ok v
                    /\ v = match json_loads icon with
                           | Ok parsed => parsed
                           | Raise _ => default_icon
                           end) as (vj & Hj & Hvj)
    by (destruct (json_loads icon); eexists; split; reflexivity).
  unfold get_tool_provider_icon_url.
  case_bool_decide as H1; [|case_bool_decide as H2; [|case_bool_decide as H3]].
  - eexists. split; [reflexivity|]. rewrite <- !app_assoc.
    repeat split; try reflexivity; intros; subst;
      rewrite ?not_elem_of_cons in *; tauto.
  - eexists. split; [reflexivity|]. rewrite <- !app_assoc.
    repeat split; try reflexivity; intros; subst;
      rewrite ?not_elem_of_cons in *; tauto.
  - exists vj. split; [exact Hj|].
    rewrite !elem_of_cons, elem_of_nil in H3.
    repeat split; try reflexivity; intros; subst;
      rewrite ?not_elem_of_cons in *; tauto.
  - eexists. split; [reflexivity|].
    rewrite !elem_of_cons, elem_of_nil in H3.
    repeat split; try reflexivity; intros; subst; tauto.
Qed.
End Resolver.


Lemma get_tool_provider_icon_url_total_witness :
  exists v : value,
    get_tool_provider_icon_url (lit "https://console.example") (lit "builtin")
      (lit "model") (lit "api") (lit "workflow") loads_literals
      (lit "api") (lit "weather") (lit "{not json") = Ok v
    /\ v = default_icon.
Proof.
  destruct (get_tool_provider_icon_url_total (lit "https://console.example")
              (lit "builtin") (lit "model") (lit "api") (lit "workflow")
              loads_literals
              (lit "api") (lit "weather") (lit "{not json"))
    as (v & Hv & _ & _ & Hapi & _).
  - apply (bool_decide_unpack _). vm_compute. exact I.
  - exists v. split; [exact Hv|]. apply Hapi. by left.
Defined.

End ToolTransformProps.

(* ===================================================================== *)
(** * Properties of the parameter merge of [tool_to_user_tool] *)
(* ===================================================================== *)

Module ToolParametersProps.
Import Py ToolParameters Scenario.

Section Override.

Variable ToolParameter : Type.
Variable Form : Type.
Context `{EqDecision Form}.
Variable name : ToolParameter -> str.
Variable form : ToolParameter -> Form.
Variable FORM : Form.

Local Abbreviation K := (key ToolParameter Form name form).
Local Abbreviation step := (override_one ToolParameter Form name form FORM).
Local Abbreviation merged :=
  (current_parameters ToolParameter Form name form FORM).

Lemma overrides_key (p rp : ToolParameter) :
  overrides ToolParameter Form name form p rp = true <->
  key ToolParameter Form name form p = key ToolParameter Form name form rp.
Proof.
  unfold overrides, key. rewrite andb_true_iff, !bool_decide_eq_true.
  split; [intros [-> ->]; done | intros [= -> ->]; done].
Qed.

Lemma replace_first_Some (rp : ToolParameter) (cur cur' : list ToolParameter) :
  replace_first ToolParameter Form name form rp cur = Some cur' ->
  exists before p after,
    cur = before ++ p :: after
    /\ cur' = before ++ rp :: after
    /\ key ToolParameter Form name form p = key ToolParameter Form name form rp
    /\ Forall (fun q => key ToolParameter Form name form q
                        <> key ToolParameter Form name form rp) before.
Proof.
  revert cur'. induction cur as [|p cur IH]; intros cur' Hr; [done|].
  cbn in Hr.
  destruct (overrides _ _ _ _ p rp) eqn:Ho.
  - simplify_eq. exists [], p, cur. apply overrides_key in Ho. auto.
  - destruct (replace_first _ _ _ _ rp cur) as [rest'|] eqn:Hrest; [|done].
    simplify_eq. destruct (IH rest' eq_refl) as (b & q & a & -> & -> & Hk & Hb).
    exists (p :: b), q, a. repeat split; try done.
    constructor; [|done]. intros Hkey. apply overrides_key in Hkey. congruence.
Qed.

Lemma replace_first_None (rp : ToolParameter) (cur : list ToolParameter) :
  replace_first ToolParameter Form name form rp cur = None <->
  key ToolParameter Form name form rp
    ∉ map (key ToolParameter Form name form) cur.
Proof.
  induction cur as [|p cur IH]; cbn.
  - split; [intros _; apply not_elem_of_nil | done].
  - rewrite not_elem_of_cons.
    destruct (overrides _ _ _ _ p rp) eqn:Ho.
    + apply overrides_key in Ho. split; [done | intros [? _]; congruence].
    + assert (key ToolParameter Form name form rp
              <> key ToolParameter Form name form p) as Hne.
      { intros Hk. symmetry in Hk. apply overrides_key in Hk. congruence. }
      destruct (replace_first _ _ _ _ rp cur); split; try done; try tauto.
      intros [_ Hn]. by apply IH in Hn.
Qed.


(** One pass either replaces a parameter by one of the same key or appends
    a FORM parameter of a new key, or does nothing. *)
Lemma override_one_cases (cur : list ToolParameter) (rp : ToolParameter) :
  (exists before p after,
      cur = before ++ p :: after
      /\ step cur rp = before ++ rp :: after
      /\ K p = K rp
      /\ Forall (fun q => K q <> K rp) before)
  \/ ((K rp ∉ map K cur) /\ form rp = FORM /\ step cur rp = cur ++ [rp])
  \/ ((K rp ∉ map K cur) /\ form rp <> FORM /\ step cur rp = cur).
Proof.
  unfold override_one.
  destruct (replace_first _ _ _ _ rp cur) as [cur'|] eqn:Hr.
  - left. apply replace_first_Some in Hr as (b & p & a & -> & -> & Hk & Hb).
    by exists b, p, a.
  - right. apply replace_first_None in Hr.
    case_bool_decide; [left|right]; done.
Qed.

Lemma fold_override_keys (rs ps : list ToolParameter) :
  exists added,
    map K (fold_left step rs ps) = map K ps ++ map K added
    /\ length (fold_left step rs ps) = (length ps + length added)%nat
    /\ Forall (fun a => form a = FORM /\ a ∈ rs) added
    /\ (forall x, x ∈ fold_left step rs ps -> x ∈ ps \/ x ∈ rs).
Proof.
  revert ps. induction rs as [|rp rs IH]; intros ps.
  - exists []. cbn. rewrite !app_nil_r. repeat split; auto.
  - cbn [fold_left].
    destruct (IH (step ps rp)) as (added & Hk & Hl & Ha & Ho).
    assert (Forall (fun a => form a = FORM /\ a ∈ rp :: rs) added) as Ha'.
    { eapply Forall_impl; [exact Ha|]. intros a [? ?]. split; [done|].
      by apply elem_of_cons; right. }
    destruct (override_one_cases ps rp)
      as [(b & p & a & -> & Hs & Hkey & _) | [(Hn & Hf & Hs) | (Hn & Hf & Hs)]];
      rewrite Hs in Hk, Hl, Ho |- *.
    + exists added. repeat split; [| |done|].
      * rewrite Hk, !map_app. cbn. by rewrite Hkey.
      * rewrite Hl, !length_app. done.
      * intros x Hx. destruct (Ho x Hx) as [Hin|Hin].
        -- rewrite elem_of_app, elem_of_cons in Hin.
           rewrite elem_of_app, !elem_of_cons. intuition.
        -- right. by apply elem_of_cons; right.
    + exists (rp :: added). repeat split.
      * rewrite Hk, map_app. cbn. by rewrite <- app_assoc.
      * rewrite Hl, length_app. cbn. lia.
      * constructor; [|done]. split; [done|]. by apply elem_of_cons; left.
      * intros x Hx. destruct (Ho x Hx) as [Hin|Hin].
        -- rewrite elem_of_app, list_elem_of_singleton in Hin.
           rewrite elem_of_cons. intuition.
        -- right. by apply elem_of_cons; right.
    + exists added. repeat split; try done.
      intros x Hx. destruct (Ho x Hx) as [Hin|Hin]; [by left|].
      right. by apply elem_of_cons; right.
Qed.

(** X1.  The merged list starts with one parameter per declared parameter,
    in the same order and under the same name and form; what follows are
    runtime parameters of form FORM; every member comes from one of the two
    lists.  Runtime parameters of another form that match nothing are
    therefore left out. *)
Theorem current_parameters_keeps_positions
    (parameters runtime_parameters : option (list ToolParameter)) :
  exists added : list ToolParameter,
    map K (merged parameters runtime_parameters) =
      map K (or_empty ToolParameter parameters) ++ map K added
    /\ length (merged parameters runtime_parameters) =
       (length (or_empty ToolParameter parameters) + length added)%nat
    /\ Forall (fun a => form a = FORM
                        /\ a ∈ or_empty ToolParameter runtime_parameters)
              added
    /\ (forall x, x ∈ merged parameters runtime_parameters ->
          x ∈ or_empty ToolParameter parameters
          \/ x ∈ or_empty ToolParameter runtime_parameters).
Proof. apply fold_override_keys. Qed.

Lemma override_one_keys (cur : list ToolParameter) (rp : ToolParameter) :
  map K (step cur rp) = map K cur
  \/ ((K rp ∉ map K cur) /\ map K (step cur rp) = map K cur ++ [K rp]).
Proof.
  destruct (override_one_cases cur rp)
    as [(b & p & a & -> & -> & Hkey & _) | [(Hn & Hf & ->) | (Hn & Hf & ->)]].
  - left. rewrite !map_app. cbn. by rewrite Hkey.
  - right. by rewrite map_app.
  - by left.
Qed.

Lemma fold_override_nodup (rs ps : list ToolParameter) :
  NoDup (map K ps) -> NoDup (map K (fold_left step rs ps)).
Proof.
  revert ps. induction rs as [|rp rs IH]; intros ps Hnd; [done|].
  cbn [fold_left]. apply IH.
  destruct (override_one_keys ps rp) as [-> | [Hn ->]]; [done|].
  apply NoDup_app. split; [done|]. split.
  - intros k Hk Hk'. apply list_elem_of_singleton in Hk'. by subst.
  - apply NoDup_singleton.
Qed.

(** X2.  When no two declared parameters share name and form, no two merged
    parameters do. *)
Theorem current_parameters_keys_stay_distinct
    (parameters runtime_parameters : option (list ToolParameter)) :
  NoDup (map K (or_empty ToolParameter parameters)) ->
  NoDup (map K (merged parameters runtime_parameters)).
Proof. apply fold_override_nodup. Qed.

Lemma override_one_stays (cur : list ToolParameter) (rp x : ToolParameter)
    (i : nat) :
  cur !! i = Some x -> K x <> K rp -> step cur rp !! i = Some x.
Proof.
  intros Hl Hne.
  destruct (override_one_cases cur rp)
    as [(b & p & a & -> & -> & Hkey & _) | [(Hn & Hf & ->) | (Hn & Hf & ->)]].
  - destruct (decide (i < length b)%nat) as [Hlt|Hge].
    + rewrite lookup_app_l in Hl |- * by done. done.
    + rewrite lookup_app_r in Hl |- * by lia.
      destruct (i - length b)%nat as [|j] eqn:Hj; cbn in *; [|done].
      by simplify_eq.
  - apply lookup_app_l_Some. done.
  - done.
Qed.

Lemma fold_override_stays (rs cur : list ToolParameter) (x : ToolParameter)
    (i : nat) :
  cur !! i = Some x -> Forall (fun q => K q <> K x) rs ->
  fold_left step rs cur !! i = Some x.
Proof.
  revert cur. induction rs as [|rp rs IH]; intros cur Hl Hall; [done|].
  apply Forall_cons in Hall as [Hne Hall]. cbn [fold_left].
  apply IH; [|done]. apply override_one_stays; [done|congruence].
Qed.

(** X3.  The last runtime parameter of a given name and form that matches a
    declared parameter, or is of form FORM, is in the merged list; when the
    declared parameters have distinct keys it is the only merged parameter
    of that name and form. *)
Theorem current_parameters_last_override_wins
    (parameters : option (list ToolParameter))
    (earlier later : list ToolParameter) (rp : ToolParameter) :
  Forall (fun q => K q <> K rp) later ->
  K rp ∈ map K (or_empty ToolParameter parameters) \/ form rp = FORM ->
  rp ∈ merged parameters (Some (earlier ++ rp :: later))
  /\ (NoDup (map K (or_empty ToolParameter parameters)) ->
      forall x, x ∈ merged parameters (Some (earlier ++ rp :: later)) ->
                K x = K rp -> x = rp).
Proof.
  intros Hlater Hor.
  assert (exists i, merged parameters (Some (earlier ++ rp :: later)) !! i
                    = Some rp) as [i Hi].
  { unfold current_parameters. cbn [or_empty].
    rewrite fold_left_app. cbn [fold_left].
    set (cur := fold_left step earlier (or_empty ToolParameter parameters)).
    assert (exists i, step cur rp !! i = Some rp) as [i Hi].
    { destruct (override_one_cases cur rp)
        as [(b & p & a & _ & -> & _ & _) | [(Hn & Hf & ->) | (Hn & Hf & _)]].
      - exists (length b). by rewrite list_lookup_middle.
      - exists (length cur). by rewrite list_lookup_middle.
      - destruct Hor as [Hin|Hf']; [|done]. exfalso. apply Hn.
        destruct (fold_override_keys earlier (or_empty ToolParameter parameters))
          as (added & Hk & _). fold cur in Hk. rewrite Hk.
        apply elem_of_app. by left. }
    exists i. apply fold_override_stays; [done|].
    eapply Forall_impl; [exact Hlater|]. done. }
  split; [by eapply list_elem_of_lookup_2|].
  intros Hnd x Hx Hkey.
  assert (NoDup (map K (merged parameters (Some (earlier ++ rp :: later)))))
    as Hnd' by (by apply fold_override_nodup).
  clear Hnd. rename Hnd' into Hnd.
  apply list_elem_of_lookup_1 in Hx as [j Hj].
  assert (i = j) as ->; [|congruence].
  eapply NoDup_lookup; [exact Hnd| |];
    rewrite list_lookup_fmap; [by rewrite Hi | by rewrite Hj; cbn; rewrite Hkey].
Qed.

(** X4.  A declared parameter whose name and form no runtime parameter has
    stays where it is. *)
Theorem current_parameters_untouched_stay
    (parameters runtime_parameters : option (list ToolParameter))
    (i : nat) (p : ToolParameter) :
  or_empty ToolParameter parameters !! i = Some p ->
  K p ∉ map K (or_empty ToolParameter runtime_parameters) ->
  merged parameters runtime_parameters !! i = Some p.
Proof.
  intros Hl Hn. apply fold_override_stays; [done|].
  apply Forall_forall. intros q Hq Hkey. apply Hn.
  rewrite <- Hkey. apply list_elem_of_fmap. eauto.
Qed.

End Override.

Lemma current_parameters_keys_stay_distinct_witness :
  NoDup (map (key parameter bool parameter_name parameter_is_form)
           (current_parameters parameter bool parameter_name
              parameter_is_form true (Some declared_parameters)
              (Some ((lit "limit", true, 20) :: runtime_only_parameters)))).
Proof.
  apply (current_parameters_keys_stay_distinct parameter bool parameter_name
           parameter_is_form true (Some declared_parameters)
           (Some ((lit "limit", true, 20) :: runtime_only_parameters))).
  apply (bool_decide_unpack _). vm_compute. exact I.
Defined.

Lemma current_parameters_last_override_wins_witness :
  (lit "limit", true, 20)
    ∈ current_parameters parameter bool parameter_name parameter_is_form true
        (Some declared_parameters)
        (Some ([] ++ (lit "limit", true, 20) :: runtime_only_parameters)).
Proof.
  apply (current_parameters_last_override_wins parameter bool parameter_name
           parameter_is_form true (Some declared_parameters)
           [] runtime_only_parameters (lit "limit", true, 20)).
  - apply (bool_decide_unpack _). vm_compute. exact I.
  - right. reflexivity.
Defined.

Lemma current_parameters_untouched_stay_witness :
  current_parameters parameter bool parameter_name parameter_is_form true
    (Some declared_parameters)
    (Some ((lit "limit", true, 20) :: runtime_only_parameters)) !! 0%nat
  = Some (lit "query", false, 0).
Proof.
  apply (current_parameters_untouched_stay parameter bool parameter_name
           parameter_is_form true (Some declared_parameters)
           (Some ((lit "limit", true, 20) :: runtime_only_parameters))
           0%nat (lit "query", false, 0)).
  - reflexivity.
  - apply (bool_decide_unpack _). vm_compute. exact I.
Defined.

End ToolParametersProps.

(* ===================================================================== *)
(** * The lifecycle of a loop: frames, failures and composition *)
(* ===================================================================== *)

Module IterationLifecycle.
Import Py Iteration Scenario IterationProps.
Local Open Scope py_scope.

Section Lifecycle.

Variable env : Oracle.

(** X5.  Handling an event leaves the entry of every loop other than the
    event's own as it is, whether the handler returns or raises. *)
Theorem operation_keeps_other_entries (ev : Event) (w : World) (Y : str) :
  Y <> event_node_id ev ->
  table (snd (_handle_iteration_operation env ev w)) !! Y = table w !! Y.
Proof.
  intros HY. destruct ev as [e|e|e]; cbn [event_node_id] in HY.
  - destruct (operation_fst_started env e w) as [_ ->].
    rewrite started_table. destruct (succeeded _); [|done].
    by rewrite lookup_insert_ne.
  - cbn [_handle_iteration_operation]. rewrite next_table.
    destruct (table w !! QueueIterationNextEvent.node_id e); [|done].
    by rewrite lookup_insert_ne.
  - cbn [_handle_iteration_operation]. rewrite completed_table.
    destruct (succeeded _); [|done]. by rewrite lookup_delete_ne.
Qed.

Lemma operation_db_grows (ev : Event) (w : World) (k : str) :
  is_Some (db_executions w !! k) ->
  is_Some (db_executions (snd (_handle_iteration_operation env ev w)) !! k).
Proof.
  intros Hs. destruct ev as [e|e|e].
  - destruct (operation_fst_started env e w) as [_ ->].
    destruct (started_db env e w) as [->|(_ & run & _ & ->)]; [done|].
    by apply insert_grows.
  - cbn [_handle_iteration_operation]. rewrite next_db.
    destruct (table w !! _) as [d|]; [|done].
    destruct (db_executions w !! Data.node_execution_id d); [|done].
    destruct (succeeded _); [|done]. by apply insert_grows.
  - cbn [_handle_iteration_operation]. rewrite completed_db.
    destruct (table w !! _) as [d|]; [|done].
    destruct (db_executions w !! Data.node_execution_id d); [|done].
    destruct (succeeded _); [|done]. by apply insert_grows.
Qed.

Lemma operation_runs (ev : Event) (w : World) :
  let w' := snd (_handle_iteration_operation env ev w) in
  db_runs w' = db_runs w
  /\ TaskState.workflow_run_id (_task_state w')
     = TaskState.workflow_run_id (_task_state w).
Proof.
  destruct ev as [e|e|e]; cbn zeta.
  - destruct (operation_fst_started env e w) as [_ ->].
    rewrite started_unfold, init_iteration_state_unfold. cbn zeta.
    case_path; destruct (_iteration_state w); done.
  - cbn [_handle_iteration_operation]. rewrite next_unfold.
    case_table w; try done. case_path; done.
  - cbn [_handle_iteration_operation]. rewrite completed_unfold.
    case_table w; try done. case_path; done.
Qed.

Lemma operation_perf (ev : Event) (w : World) :
  perf_now w <= perf_now (snd (_handle_iteration_operation env ev w)).
Proof.
  destruct ev as [e|e|e].
  - destruct (operation_fst_started env e w) as [_ ->]. apply started_perf.
  - cbn [_handle_iteration_operation]. rewrite next_perf. lia.
  - apply completed_perf.
Qed.

(** X6.  Whatever events are handled and whatever fails, no record is ever
    removed from the store, the table of runs and the run identifier of the
    task state stay as they are, and the monotonic clock never reads less
    than before. *)
Theorem process_never_deletes (evs : list Event) (w : World) :
  let w' := snd (process env evs w) in
  (forall k, is_Some (db_executions w !! k) ->
             is_Some (db_executions w' !! k))
  /\ db_runs w' = db_runs w
  /\ TaskState.workflow_run_id (_task_state w')
     = TaskState.workflow_run_id (_task_state w)
  /\ perf_now w <= perf_now w'.
Proof.
  revert w. induction evs as [|ev evs IH]; intros w; cbn zeta.
  - cbn. repeat split; auto. lia.
  - rewrite process_cons. cbn zeta. cbn [snd].
    destruct (IH (snd (_handle_iteration_operation env ev w)))
      as (Hg & Hr & Hi & Hp).
    destruct (operation_runs ev w) as [Hr0 Hi0].
    pose proof (operation_perf ev w).
    repeat split.
    + intros k Hk. by apply Hg, operation_db_grows.
    + congruence.
    + congruence.
    + lia.
Qed.

(** X7.  In a reachable world an event rewrites at most the record its own
    loop's entry points to: every other stored record is the same
    afterwards. *)
Theorem operation_rewrites_own_record_only (ev : Event) (w : World)
    (k : str) (r : WorkflowNodeExecution.t) :
  reachable env w ->
  db_executions w !! k = Some r ->
  (forall d, table w !! event_node_id ev = Some d ->
             Data.node_execution_id d <> k) ->
  db_executions (snd (_handle_iteration_operation env ev w)) !! k = Some r.
Proof.
  intros Hreach Hk Hother.
  apply (reachable_well_formed env) in Hreach as [Hkeyed _].
  destruct ev as [e|e|e]; cbn [event_node_id] in Hother.
  - destruct (operation_fst_started env e w) as [_ ->].
    destruct (started_db env e w) as [->|(Hnew & run & _ & ->)]; [done|].
    rewrite lookup_insert_ne; [done|]. congruence.
  - cbn [_handle_iteration_operation]. rewrite next_db.
    destruct (table w !! _) as [d|]; [|done].
    destruct (db_executions w !! Data.node_execution_id d) as [r0|] eqn:Hr0;
      [|done].
    destruct (succeeded _); [|done].
    rewrite lookup_insert_ne; [done|].
    rewrite (Hkeyed _ _ Hr0). by apply Hother.
  - cbn [_handle_iteration_operation]. rewrite completed_db.
    destruct (table w !! _) as [d|]; [|done].
    destruct (db_executions w !! Data.node_execution_id d) as [r0|] eqn:Hr0;
      [|done].
    destruct (succeeded _); [|done].
    rewrite lookup_insert_ne; [done|].
    rewrite (Hkeyed _ _ Hr0). by apply Hother.
Qed.

(** X9.  When the store answers but the run of the task state does not
    resolve, the start handler raises [AttributeError] on reading the
    missing run; no record is created, no entry inserted and the task state
    is left alone. *)
Theorem started_without_run_raises (e : QueueIterationStartEvent.t)
    (w : World) :
  db_fault env (env_step w) = false ->
  resolved_run w = None ->
  let w' := snd (_handle_iteration_started env e w) in
  fst (_handle_iteration_started env e w) = Raise AttributeError
  /\ db_executions w' = db_executions w
  /\ table w' = table w
  /\ _task_state w' = _task_state w.
Proof.
  intros Hf Hrun. cbn zeta.
  rewrite started_unfold, init_iteration_state_unfold. cbn zeta.
  rewrite Hf, Hrun. unfold table.
  destruct (_iteration_state w) eqn:Est; cbn; rewrite ?Est; done.
Qed.

(** X10.  When the record has been inserted and the refresh that follows
    fails, the start handler raises and the new RUNNING record stays in the
    store, while the table and the task state are as before: in a
    well-formed world no entry points to that record. *)
Theorem started_refresh_failure_orphans_record
    (e : QueueIterationStartEvent.t) (w : World) (run : WorkflowRun.t) :
  resolved_run w = Some run ->
  db_fault env (env_step w) = false ->
  db_fault env (1 + env_step w) = false ->
  db_executions w !! new_uuid env (2 + env_step w) = None ->
  db_fault env (3 + env_step w) = true ->
  let w' := snd (_handle_iteration_started env e w) in
  let new_id := new_uuid env (2 + env_step w) in
  fst (_handle_iteration_started env e w) = Raise StorageError
  /\ (exists r, db_executions w' !! new_id = Some r
                /\ WorkflowNodeExecution.status r = RUNNING
                /\ WorkflowNodeExecution.node_id r
                   = QueueIterationStartEvent.node_id e)
  /\ table w' = table w
  /\ _task_state w' = _task_state w
  /\ (well_formed w ->
      forall X d, table w' !! X = Some d -> Data.node_execution_id d <> new_id).
Proof.
  intros Hrun H0 H1 Hnew H3. cbn zeta. cbn in H1, Hnew, H3.
  rewrite started_unfold, init_iteration_state_unfold. cbn zeta.
  rewrite H0, Hrun, H1, Hnew, H3.
  assert (forall X, table w !! X
                    = match _iteration_state w with
                      | Some st =>
                          WorkflowIterationState.current_iterations st !! X
                      | None => None
                      end) as Htab.
  { intros X. unfold table. destruct (_iteration_state w); [done|].
    by rewrite lookup_empty. }
  split; [done|]. split; [|split; [|split]].
  - eexists. cbn. rewrite lookup_insert_eq. done.
  - unfold table. destruct (_iteration_state w) eqn:Est; cbn; rewrite ?Est;
      done.
  - by destruct (_iteration_state w).
  - intros [_ He] X d Hl Heq.
    assert (table w !! X = Some d) as Hl'.
    { rewrite Htab. revert Hl. unfold table.
      destruct (_iteration_state w) eqn:Est; cbn; rewrite ?Est; [done|].
      by rewrite lookup_empty. }
    destruct (He _ _ Hl') as [[r Hr] _]. rewrite Heq in Hr. cbn in Hr.
    congruence.
Qed.

(** X11.  When a next event for a loop with an entry raises, the store is as
    before while the entry already has the event's pass index and the run
    index appended to its boundary. *)
Theorem next_failure_leaves_entry_ahead (e : QueueIterationNextEvent.t)
    (w : World) (d : Data.t) (x : Exn) :
  table w !! QueueIterationNextEvent.node_id e = Some d ->
  fst (_handle_iteration_next env e w) = Raise x ->
  let w' := snd (_handle_iteration_next env e w) in
  db_executions w' = db_executions w
  /\ exists d',
       table w' !! QueueIterationNextEvent.node_id e = Some d'
       /\ Data.current_index d' = QueueIterationNextEvent.index e
       /\ Data.iteration_steps_boundary d' =
          Data.iteration_steps_boundary d
            ++ [QueueIterationNextEvent.node_run_index e].
Proof.
  intros Hl Hraise. cbn zeta. rewrite next_db, next_table, Hl, Hraise.
  split.
  - destruct (db_executions w !! _); done.
  - exists (next_entry e d). by rewrite lookup_insert_eq.
Qed.

Lemma started_succeeded_db (e : QueueIterationStartEvent.t) (w : World) :
  succeeded (fst (_handle_iteration_started env e w)) = true ->
  let new_id := new_uuid env (2 + env_step w) in
  db_executions w !! new_id = None
  /\ exists run,
       resolved_run w = Some run
       /\ fst (_handle_iteration_started env e w)
          = Ok (started_record run e new_id)
       /\ db_executions (snd (_handle_iteration_started env e w))
          = <[new_id := started_record run e new_id]> (db_executions w).
Proof.
  rewrite started_unfold, init_iteration_state_unfold. cbn zeta.
  case_path; try discriminate. intros _. split; [done|]. eauto.
Qed.

Lemma started_coherent (e : QueueIterationStartEvent.t) (w : World) :
  well_formed w -> coherent w ->
  coherent (snd (_handle_iteration_started env e w)).
Proof.
  intros [Hk He] [HA HB].
  assert (forall X d, table w !! X = Some d ->
            forall new r0, db_executions w !! new = None ->
              Data.iteration_id d = X
              /\ Data.parent_iteration_id d = None
              /\ exists r, <[new := r0]> (db_executions w)
                             !! Data.node_execution_id d = Some r
                   /\ WorkflowNodeExecution.node_id r = X
                   /\ WorkflowNodeExecution.status r = RUNNING) as Hkeep.
  { intros X d Hl new r0 Hnew.
    destruct (HA X d Hl) as (Hi & Hp & r & Hr & Hn & Hs).
    repeat split; try done. exists r.
    rewrite lookup_insert_ne; [done|]. congruence. }
  destruct (succeeded (fst (_handle_iteration_started env e w))) eqn:Hok.
  - destruct (started_succeeded_db e w Hok) as (Hnew & run & _ & _ & Hdb).
    split.
    + intros X d. rewrite started_table, Hok, Hdb.
      destruct (decide (QueueIterationStartEvent.node_id e = X)) as [<-|Hne].
      * rewrite lookup_insert_eq. intros [= <-]. cbn.
        repeat split. eexists. rewrite lookup_insert_eq. done.
      * rewrite lookup_insert_ne by done. intros Hl. by apply Hkeep.
    + intros X Y dX dY. rewrite started_table, Hok.
      destruct (decide (QueueIterationStartEvent.node_id e = X)) as [<-|HX];
        destruct (decide (QueueIterationStartEvent.node_id e = Y)) as [<-|HY];
        rewrite ?lookup_insert_eq, ?lookup_insert_ne by done; try done.
      * intros [= <-] HlY Heq. cbn in Heq, Hnew.
        destruct (He _ _ HlY) as [[r Hr] _]. rewrite <- Heq in Hr.
        congruence.
      * intros HlX [= <-] Heq. cbn in Heq, Hnew.
        destruct (He _ _ HlX) as [[r Hr] _]. rewrite Heq in Hr.
        congruence.
      * apply HB.
  - split.
    + intros X d. rewrite started_table, Hok. intros Hl.
      destruct (started_db env e w) as [->|(Hnew & run & _ & ->)];
        [by apply HA | by apply Hkeep].
    + intros X Y dX dY. rewrite started_table, Hok. apply HB.
Qed.

Lemma next_coherent (e : QueueIterationNextEvent.t) (w : World) :
  well_formed w -> coherent w ->
  coherent (snd (_handle_iteration_next env e w)).
Proof.
  intros [Hk He] [HA HB].
  destruct (table w !! QueueIterationNextEvent.node_id e) as [d0|] eqn:Hl0.
  2:{ split.
      - intros X d. rewrite next_table, next_db, Hl0. apply HA.
      - intros X Y dX dY. rewrite next_table, Hl0. apply HB. }
  destruct (HA _ _ Hl0) as (Hi0 & Hp0 & r0 & Hr0 & Hn0 & Hs0).
  pose proof (Hk _ _ Hr0) as Hid0.
  split.
  - intros X d. rewrite next_table, next_db, Hl0, Hr0.
    destruct (decide (QueueIterationNextEvent.node_id e = X)) as [<-|Hne].
    + rewrite lookup_insert_eq. intros [= <-]. cbn.
      repeat split; try done.
      destruct (succeeded _).
      * eexists. rewrite Hid0, lookup_insert_eq. done.
      * by exists r0.
    + rewrite lookup_insert_ne by done. intros Hl.
      destruct (HA _ _ Hl) as (Hi & Hp & r & Hr & Hn & Hs).
      repeat split; try done. exists r. split; [|done].
      destruct (succeeded _); [|done].
      rewrite lookup_insert_ne; [done|]. rewrite Hid0. intros Heq.
      apply Hne. by apply (HB _ _ _ _ Hl0 Hl).
  - intros X Y dX dY. rewrite next_table, Hl0.
    destruct (decide (QueueIterationNextEvent.node_id e = X)) as [<-|HX];
      destruct (decide (QueueIterationNextEvent.node_id e = Y)) as [<-|HY];
      rewrite ?lookup_insert_eq, ?lookup_insert_ne by done; try done.
    + intros [= <-] HlY Heq. cbn in Heq. by apply (HB _ _ _ _ Hl0 HlY).
    + intros HlX [= <-] Heq. cbn in Heq. by apply (HB _ _ _ _ HlX Hl0).
    + apply HB.
Qed.

Lemma completed_coherent (e : QueueIterationCompletedEvent.t) (w : World) :
  well_formed w -> coherent w ->
  coherent (snd (_handle_iteration_completed env e w)).
Proof.
  intros [Hk He] [HA HB].
  destruct (table w !! QueueIterationCompletedEvent.node_id e) as [d0|]
    eqn:Hl0.
  2:{ assert (forall b : bool,
                (if b then delete (QueueIterationCompletedEvent.node_id e)
                            (table w) else table w) = table w) as Hdel
        by (intros []; [by apply delete_id | done]).
      split.
      - intros X d. rewrite completed_table, completed_db, Hl0, Hdel.
        apply HA.
      - intros X Y dX dY. rewrite completed_table, Hdel. apply HB. }
  destruct (HA _ _ Hl0) as (Hi0 & Hp0 & r0 & Hr0 & Hn0 & Hs0).
  pose proof (Hk _ _ Hr0) as Hid0.
  destruct (succeeded (fst (_handle_iteration_completed env e w))) eqn:Hok.
  - split.
    + intros X d. rewrite completed_table, completed_db, Hl0, Hr0, Hok.
      intros Hl. apply lookup_delete_Some in Hl as [Hne Hl].
      destruct (HA _ _ Hl) as (Hi & Hp & r & Hr & Hn & Hs).
      repeat split; try done. exists r. split; [|done].
      rewrite lookup_insert_ne; [done|]. rewrite Hid0. intros Heq.
      apply Hne. by apply (HB _ _ _ _ Hl0 Hl).
    + intros X Y dX dY. rewrite completed_table, Hok.
      intros HlX HlY. apply lookup_delete_Some in HlX as [_ HlX].
      apply lookup_delete_Some in HlY as [_ HlY]. by apply HB.
  - split.
    + intros X d. rewrite completed_table, completed_db, Hl0, Hr0, Hok.
      apply HA.
    + intros X Y dX dY. rewrite completed_table, Hok. apply HB.
Qed.

Lemma operation_coherent (ev : Event) (w : World) :
  well_formed w -> coherent w ->
  coherent (snd (_handle_iteration_operation env ev w)).
Proof.
  destruct ev as [e|e|e].
  - destruct (operation_fst_started env e w) as [_ ->].
    apply started_coherent.
  - apply next_coherent.
  - apply completed_coherent.
Qed.

Lemma reachable_coherent (w : World) : reachable env w -> coherent w.
Proof.
  induction 1 as [w [Hnone _]|w ev Hr IH|w task_id ev _ IH].
  - split.
    + intros X d. unfold table. rewrite Hnone, lookup_empty. discriminate.
    + intros X Y dX dY. unfold table. rewrite Hnone, lookup_empty.
      discriminate.
  - apply operation_coherent; [|done]. by apply (reachable_well_formed env).
  - by rewrite response_unfold.
Qed.

(** X8.  In every reachable world an entry sits under its own loop
    identifier, has no parent, was started no later than the last clock
    reading, and points to a stored record of that loop, kept under its own
    key, whose status is RUNNING; no other loop's entry points to the same
    record. *)
Theorem reachable_entries_coherent (w : World) (X : str) (d : Data.t) :
  reachable env w ->
  table w !! X = Some d ->
  Data.iteration_id d = X
  /\ Data.parent_iteration_id d = None
  /\ Data.started_at d <= perf_now w
  /\ (exists r, db_executions w !! Data.node_execution_id d = Some r
        /\ WorkflowNodeExecution.id r = Data.node_execution_id d
        /\ WorkflowNodeExecution.node_id r = X
        /\ WorkflowNodeExecution.status r = RUNNING)
  /\ (forall Y dY, table w !! Y = Some dY ->
        Data.node_execution_id dY = Data.node_execution_id d -> Y = X).
Proof.
  intros Hreach Hl.
  pose proof (reachable_well_formed env w Hreach) as [Hk He].
  pose proof (reachable_coherent w Hreach) as [HA HB].
  destruct (HA _ _ Hl) as (Hi & Hp & r & Hr & Hn & Hs).
  destruct (He _ _ Hl) as [_ Ht].
  repeat split; try done.
  - exists r. repeat split; try done. by apply Hk.
  - intros Y dY HlY Heq. by apply (HB _ _ _ _ HlY Hl).
Qed.

(** X12.  A start event that is handled to the end registers, under the
    loop identifier and as the latest one, an execution info of type
    ITERATION with the identifier of the new record, which is also the one
    the new entry points to; the info's start time is not later than the
    entry's; the infos of other nodes are left alone. *)
Theorem started_registers_execution_info (e : QueueIterationStartEvent.t)
    (w w' : World) (r : WorkflowNodeExecution.t) :
  _handle_iteration_started env e w = (Ok r, w') ->
  exists (info : NodeExecutionInfo.t) (d : Data.t),
    TaskState.ran_node_execution_infos (_task_state w')
      !! QueueIterationStartEvent.node_id e = Some info
    /\ TaskState.latest_node_execution_info (_task_state w') = Some info
    /\ NodeExecutionInfo.workflow_node_execution_id info
       = WorkflowNodeExecution.id r
    /\ NodeExecutionInfo.node_type info = ITERATION
    /\ table w' !! QueueIterationStartEvent.node_id e = Some d
    /\ Data.node_execution_id d = WorkflowNodeExecution.id r
    /\ NodeExecutionInfo.start_at info <= Data.started_at d
    /\ (forall Y, Y <> QueueIterationStartEvent.node_id e ->
          TaskState.ran_node_execution_infos (_task_state w') !! Y
          = TaskState.ran_node_execution_infos (_task_state w) !! Y).
Proof.
  rewrite started_unfold. cbn zeta. case_path; try discriminate.
  intros [= <- <-]. eexists _, _. cbn.
  rewrite !lookup_insert_eq.
  do 6 (split; [reflexivity|]). cbn. split; [lia|].
  intros Y HY. by rewrite lookup_insert_ne.
Qed.

(** X13.  The next handler, the completed handler and the translator never
    change the task state, and neither does a start handler that raises. *)
Theorem task_state_untouched_by_next_and_completed (w : World) :
  (forall e, _task_state (snd (_handle_iteration_next env e w))
             = _task_state w)
  /\ (forall e, _task_state (snd (_handle_iteration_completed env e w))
                = _task_state w)
  /\ (forall task_id ev,
        _task_state (snd (_handle_iteration_to_stream_response env task_id
                            ev w)) = _task_state w)
  /\ (forall e x, fst (_handle_iteration_started env e w) = Raise x ->
        _task_state (snd (_handle_iteration_started env e w))
        = _task_state w).
Proof.
  repeat split.
  - intros e. rewrite next_unfold. case_table w; try done. case_path; done.
  - intros e. rewrite completed_unfold. case_table w; try done.
    case_path; done.
  - intros task_id ev. by rewrite response_unfold.
  - intros e x. rewrite started_unfold, init_iteration_state_unfold.
    cbn zeta. case_path; try discriminate;
      intros _; by destruct (_iteration_state w).
Qed.

(** X14.  Once a completed event with JSON-serialisable outputs for a
    live loop has been handled in a reachable world whose store answers,
    any further next or completed event for that loop, whatever it carries,
    returns at once and changes nothing. *)
Theorem events_after_completion_are_dropped (w : World)
    (c : QueueIterationCompletedEvent.t) :
  reachable env w ->
  is_Some (table w !! QueueIterationCompletedEvent.node_id c) ->
  quiet env w 3 ->
  serialisable (QueueIterationCompletedEvent.outputs c) = true ->
  let w' := snd (_handle_iteration_completed env c w) in
  fst (_handle_iteration_completed env c w) = Ok None
  /\ (forall n,
        QueueIterationNextEvent.node_id n
          = QueueIterationCompletedEvent.node_id c ->
        _handle_iteration_next env n w' = (Ok None, w'))
  /\ (forall c',
        QueueIterationCompletedEvent.node_id c'
          = QueueIterationCompletedEvent.node_id c ->
        _handle_iteration_completed env c' w' = (Ok None, w')).
Proof.
  intros Hreach [d Hl] Hq Hser.
  apply (reachable_well_formed env) in Hreach as [Hk He].
  destruct (He _ _ Hl) as [[r Hr] _].
  apply table_lookup_Some in Hl as (st & Est & El).
  pose proof (quiet_at env w 3 0 Hq ltac:(lia)) as H0.
  pose proof (quiet_at env w 3 2 Hq ltac:(lia)) as H2.
  cbn in H0, H2. cbn zeta.
  rewrite completed_unfold, Est. cbn zeta. rewrite El, H0, Hr, Hser, H2.
  split; [done|]. cbn [snd negb].
  split; intros ev Hev.
  - rewrite next_unfold. cbn. by rewrite Hev, lookup_delete_eq.
  - rewrite completed_unfold. cbn. by rewrite Hev, lookup_delete_eq.
Qed.

(** X15.  What an event that is handled to the end does to the record of
    its loop's entry: a start event leaves that record as it is (the new
    entry points to another one), a next event replaces its metadata and
    nothing else, a completed event sets its status to SUCCEEDED, its
    outputs and a non-negative elapsed time and nothing else. *)
Theorem operation_on_live_record (ev : Event) (w : World) (d : Data.t)
    (r : WorkflowNodeExecution.t) :
  reachable env w ->
  table w !! event_node_id ev = Some d ->
  db_executions w !! Data.node_execution_id d = Some r ->
  succeeded (fst (_handle_iteration_operation env ev w)) = true ->
  let w' := snd (_handle_iteration_operation env ev w) in
  match ev with
  | Start e =>
      db_executions w' !! Data.node_execution_id d = Some r
  | Next e =>
      exists boundary,
        db_executions w' !! Data.node_execution_id d =
        Some (WorkflowNodeExecution.set_execution_metadata
                (dumps (next_metadata
                          (QueueIterationNextEvent.node_run_index e)
                          (QueueIterationNextEvent.index e) boundary)) r)
  | Completed e =>
      exists elapsed,
        0 <= elapsed
        /\ db_executions w' !! Data.node_execution_id d =
           Some (WorkflowNodeExecution.set_elapsed_time elapsed
                   (WorkflowNodeExecution.set_outputs
                      (dumps (completed_outputs
                                (QueueIterationCompletedEvent.outputs e)))
                      (WorkflowNodeExecution.set_status SUCCEEDED r)))
  end.
Proof.
  intros Hreach Hl Hr Hok.
  apply (reachable_well_formed env) in Hreach as [Hk He].
  pose proof (Hk _ _ Hr) as Hid.
  destruct (He _ _ Hl) as [_ Ht].
  destruct ev as [e|e|e]; cbn [event_node_id] in Hl; cbn zeta.
  - destruct (operation_fst_started env e w) as [Hs ->]. rewrite Hs in Hok.
    destruct (started_db env e w) as [->|(Hnew & run & _ & ->)]; [done|].
    rewrite lookup_insert_ne; [done|]. congruence.
  - cbn [_handle_iteration_operation] in *.
    rewrite next_db, Hl, Hr, Hok, Hid, lookup_insert_eq. eauto.
  - cbn [_handle_iteration_operation] in *.
    rewrite completed_db, Hl, Hr, Hok, Hid, lookup_insert_eq.
    eexists. split; [|reflexivity].
    pose proof (completed_perf env e w). lia.
Qed.

(** X16.  While only next events concern a loop, whatever else is handled
    and whatever fails, its entry keeps its record identifier, start time,
    loop identifier and parent; its [current_index] is the pass index of
    the last next event for it, whether that is more or less than
    before. *)
Theorem next_events_keep_entry_identity (X : str) (evs : list Event)
    (w : World) (d : Data.t) :
  table w !! X = Some d ->
  only_next_for X evs ->
  exists d',
    table (snd (process env evs w)) !! X = Some d'
    /\ Data.node_execution_id d' = Data.node_execution_id d
    /\ Data.started_at d' = Data.started_at d
    /\ Data.iteration_id d' = Data.iteration_id d
    /\ Data.parent_iteration_id d' = Data.parent_iteration_id d
    /\ Data.current_index d' = last_next_index X (Data.current_index d) evs.
Proof.
  revert w d. induction evs as [|ev evs IH]; intros w d Hl Hon.
  - exists d. done.
  - apply Forall_cons in Hon as [[Hs Hc] Hon].
    rewrite process_cons. cbn zeta. cbn [fst snd].
    unfold last_next_index. cbn [fold_left]. fold (last_next_index X).
    destruct ev as [e|e|e]; cbn in Hs, Hc.
    + apply bool_decide_eq_false in Hs.
      destruct (operation_fst_started env e w) as [_ ->].
      apply IH; [|done].
      rewrite started_table. destruct (succeeded _); [|done].
      by rewrite lookup_insert_ne.
    + cbn [_handle_iteration_operation].
      case_bool_decide as HX.
      * destruct (IH (snd (_handle_iteration_next env e w)) (next_entry e d))
          as (d' & H1 & H2 & H3 & H4 & H5 & H6); [|done|by exists d'].
        rewrite next_table, HX, Hl. by rewrite lookup_insert_eq.
      * apply IH; [|done]. rewrite next_table.
        destruct (table w !! QueueIterationNextEvent.node_id e); [|done].
        by rewrite lookup_insert_ne.
    + apply bool_decide_eq_false in Hc.
      cbn [_handle_iteration_operation].
      apply IH; [|done].
      rewrite completed_table. destruct (succeeded _); [|done].
      by rewrite lookup_delete_ne.
Qed.

Lemma process_app (evs1 evs2 : list Event) (w : World) :
  process env (evs1 ++ evs2) w =
  (fst (process env evs1 w) ++ fst (process env evs2 (snd (process env evs1 w))),
   snd (process env evs2 (snd (process env evs1 w)))).
Proof.
  revert w. induction evs1 as [|ev evs1 IH]; intros w.
  - cbn. by destruct (process env evs2 w).
  - rewrite <- app_comm_cons, !process_cons. cbn zeta. cbn [fst snd].
    by rewrite IH.
Qed.

Lemma nexts_run (X : str) (ns : list QueueIterationNextEvent.t) (w : World)
    (d : Data.t) (r : WorkflowNodeExecution.t) :
  (forall k, db_fault env k = false) ->
  well_formed w ->
  table w !! X = Some d ->
  db_executions w !! Data.node_execution_id d = Some r ->
  Forall (fun n => QueueIterationNextEvent.node_id n = X) ns ->
  let p := process env (map Next ns) w in
  Forall (fun te : Event * bool => te.2 = true) (fst p)
  /\ well_formed (snd p)
  /\ exists d',
       table (snd p) !! X = Some d'
       /\ Data.node_execution_id d' = Data.node_execution_id d
       /\ Data.started_at d' = Data.started_at d
       /\ Data.iteration_steps_boundary d' =
          Data.iteration_steps_boundary d
            ++ map QueueIterationNextEvent.node_run_index ns
       /\ db_executions (snd p) !! Data.node_execution_id d =
          Some (WorkflowNodeExecution.set_execution_metadata
                  match last ns with
                  | None => WorkflowNodeExecution.execution_metadata r
                  | Some n =>
                      dumps (next_metadata
                               (QueueIterationNextEvent.node_run_index n)
                               (QueueIterationNextEvent.index n)
                               (Data.iteration_steps_boundary d ++
                                map QueueIterationNextEvent.node_run_index ns))
                  end r).
Proof.
  intros Hcalm. revert w d r.
  induction ns as [|n ns IH]; intros w d r Hwf Hl Hr Hall; cbn zeta.
  - cbn. split; [constructor|]. split; [done|]. exists d.
    rewrite app_nil_r. repeat split; try done. rewrite Hr. by destruct r.
  - apply Forall_cons in Hall as [Hn Hall].
    cbn [map]. rewrite process_cons. cbn zeta. cbn [fst snd].
    cbn [_handle_iteration_operation].
    pose proof (next_well_formed env n w Hwf) as Hwf'.
    pose proof Hwf as [Hk _]. pose proof (Hk _ _ Hr) as Hid.
    assert (fst (_handle_iteration_next env n w) = Ok None) as Hok.
    { apply table_lookup_Some in Hl as (st & Est & El).
      rewrite next_unfold, Est. cbn zeta.
      by rewrite Hn, El, !Hcalm, Hr. }
    assert (table (snd (_handle_iteration_next env n w)) !! X
            = Some (next_entry n d)) as Hl'.
    { rewrite next_table, Hn, Hl. by rewrite lookup_insert_eq. }
    assert (db_executions (snd (_handle_iteration_next env n w))
              !! Data.node_execution_id (next_entry n d)
            = Some (next_record n d r)) as Hr'.
    { rewrite next_db, Hn, Hl, Hr, Hok. cbn.
      by rewrite Hid, lookup_insert_eq. }
    destruct (IH _ _ _ Hwf' Hl' Hr' Hall)
      as (Htr & Hwf'' & d' & H1 & H2 & H3 & H4 & H5). cbn zeta in *.
    split; [constructor; [by rewrite Hok | done]|].
    split; [done|]. exists d'. split; [done|]. split; [done|].
    split; [done|]. cbn in H4, H5.
    split; [by rewrite H4, <- app_assoc|].
    rewrite H5, last_cons. f_equal.
    destruct (last ns) as [m|] eqn:Hlast; cbn.
    + by rewrite <- app_assoc.
    + apply last_None in Hlast. by subst ns.
Qed.

(** X17.  With a store that never fails, a run that resolves and an unused
    key: a start event, next events for the same loop and a completed
    event whose outputs are JSON-serialisable are all handled to the end;
    afterwards the loop has no entry and its record is SUCCEEDED with the
    outputs of the completed event, a non-negative elapsed time and the
    metadata of the last next event, whose boundary lists the run indices
    of all of them, or the initial metadata when there was none. *)
Theorem lifecycle_of_a_loop (w0 : World) (e : QueueIterationStartEvent.t)
    (ns : list QueueIterationNextEvent.t) (c : QueueIterationCompletedEvent.t)
    (run : WorkflowRun.t) :
  let X := QueueIterationStartEvent.node_id e in
  let new_id := new_uuid env (2 + env_step w0) in
  let evs := Start e :: map Next ns ++ [Completed c] in
  reachable env w0 ->
  resolved_run w0 = Some run ->
  (forall k, db_fault env k = false) ->
  db_executions w0 !! new_id = None ->
  Forall (fun n => QueueIterationNextEvent.node_id n = X) ns ->
  QueueIterationCompletedEvent.node_id c = X ->
  serialisable (QueueIterationCompletedEvent.outputs c) = true ->
  Forall (fun te : Event * bool => te.2 = true) (fst (process env evs w0))
  /\ table (snd (process env evs w0)) !! X = None
  /\ exists (r : WorkflowNodeExecution.t) (elapsed : Z),
       db_executions (snd (process env evs w0)) !! new_id = Some r
       /\ WorkflowNodeExecution.node_id r = X
       /\ WorkflowNodeExecution.status r = SUCCEEDED
       /\ WorkflowNodeExecution.outputs r =
          Some (dumps (completed_outputs
                         (QueueIterationCompletedEvent.outputs c)))
       /\ WorkflowNodeExecution.elapsed_time r = Some elapsed
       /\ 0 <= elapsed
       /\ WorkflowNodeExecution.execution_metadata r =
          dumps match last ns with
                | None =>
                    initial_metadata
                      (QueueIterationStartEvent.node_run_index e)
                | Some n =>
                    next_metadata
                      (QueueIterationNextEvent.node_run_index n)
                      (QueueIterationNextEvent.index n)
                      (map QueueIterationNextEvent.node_run_index ns)
                end.
Proof.
  intros X new_id evs Hreach Hrun Hcalm Hnew Hns Hc Hser.
  pose proof (reachable_well_formed env w0 Hreach) as Hwf0.
  assert (quiet env w0 4) as Hq by (intros j _; apply Hcalm).
  unfold resolved_run in Hrun.
  destruct (TaskState.workflow_run_id (_task_state w0)) as [run_id|] eqn:Hid;
    [|done].
  destruct (started_success env w0 e run_id run Hid Hrun Hq Hnew)
    as (w1 & t & Hstart & Hdb1 & Htab1).
  subst evs. rewrite process_cons. cbn zeta. cbn [fst snd].
  destruct (operation_fst_started env e w0) as [Hs1 Hw1].
  rewrite Hs1, Hw1, Hstart. cbn [fst snd succeeded].
  assert (well_formed w1) as Hwf1.
  { replace w1 with (snd (_handle_iteration_started env e w0))
      by (by rewrite Hstart). by apply started_well_formed. }
  assert (table w1 !! X = Some (started_entry e new_id t)) as Hl1
    by (by rewrite Htab1, lookup_insert_eq).
  assert (db_executions w1 !! Data.node_execution_id (started_entry e new_id t)
          = Some (started_record run e new_id)) as Hr1
    by (by rewrite Hdb1; cbn; rewrite lookup_insert_eq).
  destruct (nexts_run X ns w1 _ _ Hcalm Hwf1 Hl1 Hr1 Hns)
    as (Htr & Hwf2 & d2 & Hl2 & He2 & Ht2 & Hb2 & Hr2). cbn zeta in *.
  rewrite process_app. cbn [fst snd].
  set (w2 := snd (process env (map Next ns) w1)) in *.
  cbn [process]. cbn [_handle_iteration_operation].
  destruct (_handle_iteration_completed env c w2) as [res w3] eqn:Hcomp.
  cbn [fst snd].
  cbn in He2, Hr2.
  pose proof Hwf2 as [Hk2 He2'].
  destruct (He2' _ _ Hl2) as [_ Hle].
  pose proof (Hk2 _ _ Hr2) as Hid2. cbn in Hid2.
  apply table_lookup_Some in Hl2 as (st & Est & El).
  rewrite completed_unfold, Est in Hcomp. cbn zeta in Hcomp.
  rewrite Hc, El, !Hcalm, He2, Hr2, Hser in Hcomp. cbn [negb] in Hcomp.
  simplify_eq. cbn.
  split.
  { constructor; [done|]. apply Forall_app. split; [done|].
    by constructor. }
  rewrite lookup_delete_eq. split; [done|].
  rewrite lookup_insert_eq. eexists _, _. split; [reflexivity|]. cbn.
  repeat split; try done.
  - lia.
  - destruct (last ns); done.
Qed.

(** X23.  In a reachable world where the loop has an entry and the store
    answers the fetch, a completed event whose outputs are not
    JSON-serialisable makes the handler raise [TypeError] at line 190:
    nothing is committed and nothing is popped, so the table, the store,
    the task state and the clock are as before and the loop stays live
    with its record not finalised; only the fetch has taken place. *)
Theorem completed_unserialisable_outputs_raise (w : World)
    (c : QueueIterationCompletedEvent.t) (d : Data.t) :
  reachable env w ->
  table w !! QueueIterationCompletedEvent.node_id c = Some d ->
  quiet env w 1 ->
  serialisable (QueueIterationCompletedEvent.outputs c) = false ->
  _handle_iteration_completed env c w
  = (Raise TypeError, set_env_step (S (env_step w)) w).
Proof.
  intros Hreach Hl Hq Hser.
  apply (reachable_well_formed env) in Hreach as [_ He].
  destruct (He _ _ Hl) as [[r Hr] _].
  apply table_lookup_Some in Hl as (st & Est & El).
  pose proof (quiet_at env w 1 0 Hq ltac:(lia)) as H0. cbn in H0.
  rewrite completed_unfold, Est. cbn zeta.
  by rewrite El, H0, Hr, Hser.
Qed.

End Lifecycle.

(** ** The properties on the concrete runs *)

Lemma reachable_started_two : reachable calm started_two.
Proof. apply reachable_operation, reachable_started. Defined.

Lemma operation_keeps_other_entries_witness :
  table (snd (_handle_iteration_operation calm (Next next_loop1_0)
                started_two)) !! lit "loop2"
  = table started_two !! lit "loop2".
Proof.
  apply (operation_keeps_other_entries calm (Next next_loop1_0) started_two
           (lit "loop2")).
  intros H. vm_compute in H. discriminate.
Defined.

Lemma operation_rewrites_own_record_only_witness :
  db_executions (snd (_handle_iteration_operation calm (Next next_loop1_0)
                        started_two)) !! lit "exec-8"
  = Some (started_record run1 start_loop2 (lit "exec-8")).
Proof.
  apply (operation_rewrites_own_record_only calm (Next next_loop1_0)
           started_two (lit "exec-8")
           (started_record run1 start_loop2 (lit "exec-8"))).
  - apply reachable_started_two.
  - vm_compute. reflexivity.
  - intros d H. vm_compute in H. injection H as <-.
    intros H. vm_compute in H. discriminate.
Defined.

Lemma reachable_entries_coherent_witness :
  Data.iteration_id (started_entry start_loop2 (lit "exec-8") 108)
    = lit "loop2"
  /\ Data.parent_iteration_id (started_entry start_loop2 (lit "exec-8") 108)
     = None
  /\ 108 <= perf_now started_two
  /\ (exists r, db_executions started_two !! lit "exec-8" = Some r
        /\ WorkflowNodeExecution.id r = lit "exec-8"
        /\ WorkflowNodeExecution.node_id r = lit "loop2"
        /\ WorkflowNodeExecution.status r = RUNNING)
  /\ (forall Y dY, table started_two !! Y = Some dY ->
        Data.node_execution_id dY = lit "exec-8" -> Y = lit "loop2").
Proof.
  apply (reachable_entries_coherent calm started_two (lit "loop2")
           (started_entry start_loop2 (lit "exec-8") 108)).
  - apply reachable_started_two.
  - vm_compute. reflexivity.
Defined.

Lemma started_without_run_raises_witness :
  fst (_handle_iteration_started calm start_loop1 no_run)
    = Raise AttributeError
  /\ db_executions (snd (_handle_iteration_started calm start_loop1 no_run))
     = db_executions no_run
  /\ table (snd (_handle_iteration_started calm start_loop1 no_run))
     = table no_run
  /\ _task_state (snd (_handle_iteration_started calm start_loop1 no_run))
     = _task_state no_run.
Proof.
  apply (started_without_run_raises calm start_loop1 no_run); reflexivity.
Defined.

Lemma started_refresh_failure_orphans_record_witness :
  fst (_handle_iteration_started refresh_fails start_loop1 Scenario.fresh)
    = Raise StorageError
  /\ (exists r,
        db_executions (snd (_handle_iteration_started refresh_fails
                              start_loop1 Scenario.fresh)) !! lit "exec-2" = Some r
        /\ WorkflowNodeExecution.status r = RUNNING
        /\ WorkflowNodeExecution.node_id r = lit "loop1")
  /\ table (snd (_handle_iteration_started refresh_fails start_loop1 Scenario.fresh))
     = table Scenario.fresh.
Proof.
  destruct (started_refresh_failure_orphans_record refresh_fails start_loop1
              Scenario.fresh run1) as (H1 & H2 & H3 & _);
    [vm_compute; reflexivity..|].
  split; [exact H1|]. split; [exact H2|exact H3].
Defined.

Lemma next_failure_leaves_entry_ahead_witness :
  db_executions
    (snd (_handle_iteration_next fetch_fails next_loop1_0
            (snd (_handle_iteration_operation fetch_fails (Start start_loop1)
                    Scenario.fresh))))
  = db_executions
      (snd (_handle_iteration_operation fetch_fails (Start start_loop1)
              Scenario.fresh))
  /\ exists d',
       table (snd (_handle_iteration_next fetch_fails next_loop1_0
                     (snd (_handle_iteration_operation fetch_fails
                             (Start start_loop1) Scenario.fresh)))) !! lit "loop1"
       = Some d'
       /\ Data.current_index d' = 0
       /\ Data.iteration_steps_boundary d' = [] ++ [3].
Proof.
  apply (next_failure_leaves_entry_ahead fetch_fails next_loop1_0
           (snd (_handle_iteration_operation fetch_fails (Start start_loop1)
                   Scenario.fresh))
           (started_entry start_loop1 (lit "exec-2") 104) StorageError).
  - vm_compute. reflexivity.
  - vm_compute. reflexivity.
Defined.

Lemma started_registers_execution_info_witness :
  exists (info : NodeExecutionInfo.t) (d : Data.t),
    TaskState.ran_node_execution_infos (_task_state started) !! lit "loop1"
      = Some info
    /\ TaskState.latest_node_execution_info (_task_state started) = Some info
    /\ NodeExecutionInfo.workflow_node_execution_id info = lit "exec-2"
    /\ NodeExecutionInfo.node_type info = ITERATION
    /\ table started !! lit "loop1" = Some d
    /\ Data.node_execution_id d = lit "exec-2"
    /\ NodeExecutionInfo.start_at info <= Data.started_at d
    /\ (forall Y, Y <> lit "loop1" ->
          TaskState.ran_node_execution_infos (_task_state started) !! Y
          = TaskState.ran_node_execution_infos (_task_state Scenario.fresh) !! Y).
Proof.
  apply (started_registers_execution_info calm start_loop1 Scenario.fresh started
           (started_record run1 start_loop1 (lit "exec-2"))).
  vm_compute. reflexivity.
Defined.

Lemma events_after_completion_are_dropped_witness :
  fst (_handle_iteration_completed calm completed_loop1 started) = Ok None
  /\ (forall n,
        QueueIterationNextEvent.node_id n = lit "loop1" ->
        _handle_iteration_next calm n
          (snd (_handle_iteration_completed calm completed_loop1 started))
        = (Ok None,
           snd (_handle_iteration_completed calm completed_loop1 started)))
  /\ (forall c',
        QueueIterationCompletedEvent.node_id c' = lit "loop1" ->
        _handle_iteration_completed calm c'
          (snd (_handle_iteration_completed calm completed_loop1 started))
        = (Ok None,
           snd (_handle_iteration_completed calm completed_loop1 started))).
Proof.
  apply (events_after_completion_are_dropped calm started completed_loop1).
  - apply reachable_started.
  - vm_compute. eexists. reflexivity.
  - apply quiet_calm.
  - reflexivity.
Defined.

Lemma operation_on_live_record_witness :
  exists boundary,
    db_executions (snd (_handle_iteration_operation calm (Next next_loop1_0)
                          started)) !! lit "exec-2"
    = Some (WorkflowNodeExecution.set_execution_metadata
              (dumps (next_metadata 3 0 boundary))
              (started_record run1 start_loop1 (lit "exec-2"))).
Proof.
  apply (operation_on_live_record calm (Next next_loop1_0) started
           (started_entry start_loop1 (lit "exec-2") 104)
           (started_record run1 start_loop1 (lit "exec-2"))).
  - apply reachable_started.
  - vm_compute. reflexivity.
  - vm_compute. reflexivity.
  - vm_compute. reflexivity.
Defined.

Lemma next_events_keep_entry_identity_witness :
  exists d',
    table (snd (process calm [Next next_loop1_1; Start start_loop2;
                              Next next_loop1_0] started)) !! lit "loop1"
      = Some d'
    /\ Data.node_execution_id d' = lit "exec-2"
    /\ Data.started_at d' = 104
    /\ Data.iteration_id d' = lit "loop1"
    /\ Data.parent_iteration_id d' = None
    /\ Data.current_index d' = 0.
Proof.
  apply (next_events_keep_entry_identity calm (lit "loop1")
           [Next next_loop1_1; Start start_loop2; Next next_loop1_0]
           started (started_entry start_loop1 (lit "exec-2") 104)).
  - vm_compute. reflexivity.
  - repeat constructor.
Defined.

Lemma lifecycle_of_a_loop_witness :
  Forall (fun te : Event * bool => te.2 = true)
    (fst (process calm
            (Start start_loop1
               :: map Next [next_loop1_0; next_loop1_1]
               ++ [Completed completed_loop1]) Scenario.fresh))
  /\ table (snd (process calm
                   (Start start_loop1
                      :: map Next [next_loop1_0; next_loop1_1]
                      ++ [Completed completed_loop1]) Scenario.fresh)) !! lit "loop1"
     = None
  /\ exists (r : WorkflowNodeExecution.t) (elapsed : Z),
       db_executions
         (snd (process calm
                 (Start start_loop1
                    :: map Next [next_loop1_0; next_loop1_1]
                    ++ [Completed completed_loop1]) Scenario.fresh)) !! lit "exec-2"
       = Some r
       /\ WorkflowNodeExecution.node_id r = lit "loop1"
       /\ WorkflowNodeExecution.status r = SUCCEEDED
       /\ WorkflowNodeExecution.outputs r =
          Some (dumps (completed_outputs
                         (VDict [(lit "result", VStr (lit "ok"))])))
       /\ WorkflowNodeExecution.elapsed_time r = Some elapsed
       /\ 0 <= elapsed
       /\ WorkflowNodeExecution.execution_metadata r =
          dumps (next_metadata 5 1 [3; 5]).
Proof.
  apply (lifecycle_of_a_loop calm Scenario.fresh start_loop1
           [next_loop1_0; next_loop1_1] completed_loop1 run1).
  - apply reachable_initial, initial_fresh.
  - vm_compute. reflexivity.
  - intros k. reflexivity.
  - vm_compute. reflexivity.
  - repeat constructor.
  - reflexivity.
  - reflexivity.
Defined.

Lemma completed_unserialisable_outputs_raise_witness :
  _handle_iteration_completed calm completed_loop1_object started
  = (Raise TypeError, set_env_step (S (env_step started)) started).
Proof.
  apply (completed_unserialisable_outputs_raise calm started
           completed_loop1_object
           (started_entry start_loop1 (lit "exec-2") 104)).
  - apply reachable_started.
  - vm_compute. reflexivity.
  - apply quiet_calm.
  - reflexivity.
Defined.

End IterationLifecycle.

(* ===================================================================== *)
(** * Properties of [repack_provider] *)
(* ===================================================================== *)

Module RepackProps.
Import Py ToolTransform Repack Scenario.

Section Repack.

Variable CONSOLE_API_URL : str.
Variables BUILTIN MODEL API WORKFLOW : str.
Variable json_loads : str -> Result value.

Local Abbreviation url :=
  (icon_url CONSOLE_API_URL BUILTIN MODEL API WORKFLOW json_loads).
Local Abbreviation repack :=
  (repack_provider_dict CONSOLE_API_URL BUILTIN MODEL API WORKFLOW json_loads).
Local Abbreviation repack_user :=
  (repack_provider_user CONSOLE_API_URL BUILTIN MODEL API WORKFLOW json_loads).
Local Abbreviation derived := (icon_is_derived BUILTIN MODEL API WORKFLOW).

(** On three strings the resolver is the one of the claims. *)
Lemma icon_url_on_strings (provider_type provider_name icon : str) :
  url (VStr provider_type) (VStr provider_name) (VStr icon) =
  match get_tool_provider_icon_url CONSOLE_API_URL BUILTIN MODEL API WORKFLOW
          json_loads provider_type provider_name icon with
  | Ok v => Some v
  | Raise _ => None
  end.
Proof.
  unfold icon_url, get_tool_provider_icon_url, equals_str, icon_path,
    loads_object, try_except.
  repeat case_bool_decide; cbn; try done.
  all: try (destruct (json_loads icon); done).
  all: rewrite ?elem_of_cons, ?elem_of_nil in *; try tauto.
  all: exfalso; intuition.
Qed.


Lemma icon_url_derived (t n icon icon' : value) :
  derived t = true -> url t n icon' = url t n icon.
Proof.
  unfold icon_is_derived, icon_url.
  destruct (equals_str t BUILTIN); [done|].
  destruct (equals_str t MODEL); [done|].
  destruct (equals_str t API || equals_str t WORKFLOW); done.
Qed.

Lemma icon_url_parsed (t n icon : value) :
  derived t = false ->
  url t n icon = Some (match loads_object json_loads icon with
                       | Some parsed => parsed
                       | None => default_icon
                       end).
Proof.
  unfold icon_is_derived, icon_url.
  destruct (equals_str t BUILTIN); [done|].
  destruct (equals_str t MODEL); [done|].
  destruct (equals_str t API || equals_str t WORKFLOW); done.
Qed.

Lemma key_type_icon : lit "type" <> lit "icon".
Proof. intros H. vm_compute in H. discriminate. Qed.

Lemma key_name_icon : lit "name" <> lit "icon".
Proof. intros H. vm_compute in H. discriminate. Qed.

(** X18.  On a dict, [repack_provider] returns exactly when the dict has no
    [icon] key, or has both [type] and [name] and either the type is
    neither builtin nor model or the name is a str; otherwise it raises (a
    missing key, or a name that cannot be added to the URL). *)
Theorem repack_provider_dict_returns_iff (provider : gmap str value) :
  is_Some (repack provider) <->
    provider !! lit "icon" = None
    \/ exists t n,
         provider !! lit "type" = Some t
         /\ provider !! lit "name" = Some n
         /\ ((equals_str t BUILTIN = false /\ equals_str t MODEL = false)
             \/ exists s, n = VStr s).
Proof.
  unfold repack_provider_dict.
  destruct (provider !! lit "icon") as [icon|] eqn:Hi.
  2:{ split; [by left | by eexists]. }
  destruct (provider !! lit "type") as [t|] eqn:Ht; cbn.
  2:{ split; [by intros [? ?] | intros [?|(? & ? & ? & _)]; done]. }
  destruct (provider !! lit "name") as [n|] eqn:Hn; cbn.
  2:{ split; [by intros [? ?] | intros [?|(? & ? & ? & ? & _)]; done]. }
  unfold icon_url, icon_path.
  split.
  - intros Hs. right. exists t, n. split; [done|]. split; [done|].
    destruct (equals_str t BUILTIN); [right|].
    { destruct n; cbn in Hs; try (by destruct Hs). by eexists. }
    destruct (equals_str t MODEL); [right|by left].
    destruct n; cbn in Hs; try (by destruct Hs). by eexists.
  - intros [?|(t' & n' & ? & ? & Hor)]; [done|]. simplify_eq.
    destruct Hor as [[-> ->]|[s ->]].
    + destruct (_ || _); cbn; by eexists.
    + destruct (equals_str t' BUILTIN); [cbn; by eexists|].
      destruct (equals_str t' MODEL); [cbn; by eexists|].
      destruct (_ || _); cbn; by eexists.
Qed.

(** X19.  When [repack_provider] returns on a dict, the dict has the keys it
    had and every value but the one under [icon] is the same. *)
Theorem repack_provider_dict_touches_icon_only
    (provider provider' : gmap str value) :
  repack provider = Some provider' ->
  dom provider' = dom provider
  /\ (forall k, k <> lit "icon" -> provider' !! k = provider !! k).
Proof.
  unfold repack_provider_dict.
  destruct (provider !! lit "icon") as [icon|] eqn:Hi; [|by intros [= <-]].
  destruct (provider !! lit "type") as [t|]; [|done]. cbn.
  destruct (provider !! lit "name") as [n|]; [|done]. cbn.
  destruct (url t n icon) as [v|]; [|done]. cbn. intros [= <-]. split.
  - rewrite dom_insert_L. apply subseteq_union_1_L, singleton_subseteq_l.
    apply elem_of_dom. by eexists.
  - intros k Hk. by rewrite lookup_insert_ne.
Qed.

(** X20.  When the type is builtin or model, or none of the four known
    types, repacking a dict a second time changes nothing. *)
Theorem repack_provider_dict_idempotent
    (provider provider' : gmap str value) :
  repack provider = Some provider' ->
  (forall t, provider !! lit "type" = Some t -> derived t = true) ->
  repack provider' = Some provider'.
Proof.
  unfold repack_provider_dict.
  destruct (provider !! lit "icon") as [icon|] eqn:Hi.
  2:{ intros [= <-] _. by rewrite Hi. }
  destruct (provider !! lit "type") as [t|] eqn:Ht; [|done]. cbn.
  destruct (provider !! lit "name") as [n|] eqn:Hn; [|done]. cbn.
  destruct (url t n icon) as [v|] eqn:Hv; [|done]. cbn.
  intros [= <-] Hd.
  rewrite lookup_insert_eq.
  rewrite !lookup_insert_ne
    by (apply not_eq_sym; first [apply key_type_icon | apply key_name_icon]).
  rewrite Ht. cbn. rewrite Hn. cbn.
  rewrite (icon_url_derived t n icon v) by (by apply Hd).
  rewrite Hv. cbn. by rewrite insert_insert_eq.
Qed.

(** X21.  For a dict of type API or WORKFLOW whose icon text parses to a
    value that is not a str, the first repacking stores the parsed value and
    a second one replaces it by the default icon, because [json.loads]
    refuses what is not a str. *)
Theorem repack_provider_dict_twice_drops_parsed_icon
    (provider : gmap str value) (t n : value) (s : str) (parsed : value) :
  provider !! lit "type" = Some t ->
  provider !! lit "name" = Some n ->
  provider !! lit "icon" = Some (VStr s) ->
  derived t = false ->
  json_loads s = Ok parsed ->
  (forall x, parsed <> VStr x) ->
  repack provider = Some (<[lit "icon" := parsed]> provider)
  /\ repack (<[lit "icon" := parsed]> provider)
     = Some (<[lit "icon" := default_icon]> provider).
Proof.
  intros Ht Hn Hi Hd Hl Hp.
  unfold repack_provider_dict.
  rewrite Hi, Ht. cbn. rewrite Hn. cbn.
  rewrite (icon_url_parsed t n _ Hd). cbn. rewrite Hl. cbn.
  split; [done|].
  rewrite lookup_insert_eq.
  rewrite !lookup_insert_ne
    by (apply not_eq_sym; first [apply key_type_icon | apply key_name_icon]).
  rewrite Ht. cbn. rewrite Hn. cbn.
  rewrite (icon_url_parsed t n _ Hd). cbn.
  assert (loads_object json_loads parsed = None) as ->.
  { destruct parsed; try done. by destruct (Hp s0). }
  cbn. by rewrite insert_insert_eq.
Qed.

(** X22.  On a [UserToolProvider], [repack_provider] always returns and
    keeps type and name.  For builtin and model providers, and for unknown
    types, a second repacking changes nothing; for API and WORKFLOW
    providers, if the first one left an icon that is not a str, the second
    one leaves the default icon. *)
Theorem repack_provider_user_returns (provider : UserToolProvider.t) :
  exists provider',
    repack_user provider = Some provider'
    /\ UserToolProvider.type_value provider'
       = UserToolProvider.type_value provider
    /\ UserToolProvider.name provider' = UserToolProvider.name provider
    /\ (derived (VStr (UserToolProvider.type_value provider)) = true ->
        repack_user provider' = Some provider')
    /\ (derived (VStr (UserToolProvider.type_value provider)) = false ->
        (forall x, UserToolProvider.icon provider' <> VStr x) ->
        exists provider'',
          repack_user provider' = Some provider''
          /\ UserToolProvider.icon provider'' = default_icon).
Proof.
  unfold repack_provider_user.
  destruct (derived (VStr (UserToolProvider.type_value provider))) eqn:Hd.
  - assert (exists v, url (VStr (UserToolProvider.type_value provider))
                        (VStr (UserToolProvider.name provider))
                        (UserToolProvider.icon provider) = Some v)
      as [v Hv].
    { unfold icon_url, icon_path.
      destruct (equals_str _ BUILTIN); [by eexists|].
      destruct (equals_str _ MODEL); [by eexists|].
      destruct (_ || _); by eexists. }
    rewrite Hv. cbn. eexists. split; [reflexivity|]. cbn.
    repeat split; [|done].
    intros _. rewrite (icon_url_derived _ _ (UserToolProvider.icon provider) v)
      by done.
    by rewrite Hv.
  - rewrite (icon_url_parsed _ _ _ Hd). cbn. eexists.
    split; [reflexivity|]. cbn. repeat split; [done|].
    intros _ Hp. rewrite (icon_url_parsed _ _ _ Hd). cbn.
    eexists. split; [reflexivity|]. cbn.
    destruct (loads_object json_loads (UserToolProvider.icon provider))
      as [parsed|] eqn:Hl.
    + destruct parsed; try done. by destruct (Hp s).
    + done.
Qed.

End Repack.

Lemma repack_provider_dict_touches_icon_only_witness :
  dom builtin_provider_repacked = dom builtin_provider
  /\ (forall k, k <> lit "icon" ->
        builtin_provider_repacked !! k = builtin_provider !! k).
Proof.
  apply (repack_provider_dict_touches_icon_only console_url (lit "builtin")
           (lit "model") (lit "api") (lit "workflow") loads_literals
           builtin_provider builtin_provider_repacked).
  vm_compute. reflexivity.
Defined.

Lemma repack_provider_dict_idempotent_witness :
  repack_provider_dict console_url (lit "builtin") (lit "model") (lit "api")
    (lit "workflow") loads_literals builtin_provider_repacked
  = Some builtin_provider_repacked.
Proof.
  apply (repack_provider_dict_idempotent console_url (lit "builtin")
           (lit "model") (lit "api") (lit "workflow") loads_literals
           builtin_provider builtin_provider_repacked).
  - vm_compute. reflexivity.
  - intros t H. vm_compute in H. injection H as <-. vm_compute. reflexivity.
Defined.

Lemma repack_provider_dict_twice_drops_parsed_icon_witness :
  repack_provider_dict console_url (lit "builtin") (lit "model") (lit "api")
    (lit "workflow") loads_literals api_provider
  = Some (<[lit "icon" := VNone]> api_provider)
  /\ repack_provider_dict console_url (lit "builtin") (lit "model")
       (lit "api") (lit "workflow") loads_literals
       (<[lit "icon" := VNone]> api_provider)
     = Some (<[lit "icon" := default_icon]> api_provider).
Proof.
  apply (repack_provider_dict_twice_drops_parsed_icon console_url
           (lit "builtin") (lit "model") (lit "api") (lit "workflow")
           loads_literals api_provider (VStr (lit "api"))
           (VStr (lit "petstore")) (lit "null") VNone).
  - vm_compute. reflexivity.
  - vm_compute. reflexivity.
  - vm_compute. reflexivity.
  - vm_compute. reflexivity.
  - vm_compute. reflexivity.
  - intros x H. discriminate.
Defined.

End RepackProps.
